(** * rigig_module: bone-name normalisation and FBX validation

    A shallow embedding of [src/3d-rigging/BoneMapper.ts] and of the
    [FBXValidator] class, with the properties of the design document
    stated and proved over it.

    Conventions of the embedding:
    - a JavaScript string is a [string]: a sequence of 8-bit code units
      (the Latin-1 range of UTF-16); message texts are kept as the bytes of
      the source literal;
    - a JavaScript [Map<string,string>] is an association list in insertion
      order, since [Map.prototype.forEach] visits entries in that order;
    - arrays of objects mutated in place ([skeleton.bones], [clip.tracks])
      are lists whose elements carry an identity next to the mutable [name];
      no object occurs twice in an array or in two arrays, as the loader
      produces them;
    - a number is a rational: every finite double is one;
    - console output is not modelled. *)

From Stdlib Require Import QArith Qabs Qround Ascii.
From stdpp Require Import base list strings pretty.

Local Open Scope string_scope.
Local Open Scope list_scope.

(** ** JavaScript strings *)

Module Js.

(** [String.prototype.toLowerCase] on one code unit of the Latin-1 range. *)
Definition toLowerChar (c : ascii) : ascii :=
  let n := Ascii.N_of_ascii c in
  if ((65 <=? n) && (n <=? 90) || (192 <=? n) && (n <=? 222) && negb (n =? 215))%N
  then Ascii.ascii_of_N (n + 32) else c.

Fixpoint toLowerCase (s : string) : string :=
  match s with
  | EmptyString => EmptyString
  | String c s' => String (toLowerChar c) (toLowerCase s')
  end.

(** [s.startsWith(p)]. *)
Fixpoint startsWith (p s : string) : bool :=
  match p, s with
  | EmptyString, _ => true
  | String a p', String b s' => if Ascii.eqb a b then startsWith p' s' else false
  | String _ _, EmptyString => false
  end.

(** [s.includes(p)]: [p] occurs in [s] at some index. *)
Fixpoint includes (s p : string) : bool :=
  if startsWith p s then true
  else match s with
       | EmptyString => false
       | String _ s' => includes s' p
       end.

(** [s.indexOf(c)] for a one-character needle; [None] stands for [-1]. *)
Fixpoint indexOf (s : string) (c : ascii) : option nat :=
  match s with
  | EmptyString => None
  | String a s' => if Ascii.eqb a c then Some 0 else S <$> indexOf s' c
  end.

(** [s.substring(0, n)]. *)
Fixpoint substring_to (s : string) (n : nat) : string :=
  match n, s with
  | S n', String a s' => String a (substring_to s' n')
  | _, _ => EmptyString
  end.

(** [s.substring(n)]. *)
Fixpoint substring_from (s : string) (n : nat) : string :=
  match n, s with
  | S n', String _ s' => substring_from s' n'
  | _, _ => s
  end.

(** [xs.includes(x)] on an array of strings. *)
Definition array_includes (xs : list string) (x : string) : bool :=
  existsb (String.eqb x) xs.

(** [xs.join(sep)]. *)
Fixpoint join (sep : string) (xs : list string) : string :=
  match xs with
  | [] => ""
  | [x] => x
  | x :: xs' => x +:+ sep +:+ join sep xs'
  end.

(** [Map<string,string>]: the entries in insertion order, keys unique. *)
Definition Map : Type := list (string * string).

(** [m.get(k)]; [None] stands for [undefined]. *)
Fixpoint map_get (m : Map) (k : string) : option string :=
  match m with
  | [] => None
  | (k', v) :: m' => if String.eqb k' k then Some v else map_get m' k
  end.

(** [m.has(k)]. *)
Definition map_has (m : Map) (k : string) : bool :=
  match map_get m k with Some _ => true | None => false end.

(** [m.set(k, v)]: a present key keeps its place and takes the new value,
    a new key goes last. *)
Fixpoint map_set (m : Map) (k v : string) : Map :=
  match m with
  | [] => [(k, v)]
  | (k', v') :: m' =>
      if String.eqb k' k then (k', v) :: m' else (k', v') :: map_set m' k v
  end.

End Js.

(** ** Regular expressions

    The fragment of ECMAScript regular expressions used by the rule table:
    literals, [.], character classes, [^], [$], sequence, alternation,
    [?], [*] and negative lookahead, all under the [i] flag.  The matcher is
    a backtracking one: [ends r x] lists, in the order a backtracking
    engine tries them, the states in which a match of [r] started in state
    [x] can end.  None of the patterns has a back-reference, so [test]
    succeeds exactly when some start index has an end state. *)

Module RegExp.

Inductive regex : Type :=
| Eps                          (* the empty pattern *)
| Chr (c : ascii)              (* a literal character *)
| Dot                          (* [.] *)
| Cls (cs : list ascii)        (* [[...]] *)
| Bol                          (* [^] *)
| Eol                          (* [$] *)
| Seq (r1 r2 : regex)          (* [r1 r2] *)
| Alt (r1 r2 : regex)          (* [r1|r2] *)
| Opt (r : regex)              (* [r?] *)
| Star (r : regex)             (* [r*] *)
| NegLook (r : regex).         (* [(?!r)] *)

(** Canonicalize of the specification, for the [i] flag without [u]: the
    upper-case code unit.  [0xB5], [0xDF] and [0xFF] have no upper case in
    the range and stay, which keeps equality of canonical forms. *)
Definition canonicalize (c : ascii) : ascii :=
  let n := Ascii.N_of_ascii c in
  if ((97 <=? n) && (n <=? 122) || (224 <=? n) && (n <=? 254) && negb (n =? 247))%N
  then Ascii.ascii_of_N (n - 32) else c.

(** The line terminators, which [.] does not match. *)
Definition isLineTerminator (c : ascii) : bool :=
  let n := Ascii.N_of_ascii c in ((n =? 10) || (n =? 13))%N.

(** A matcher state: the index of the next character and the input left. *)
Definition state : Type := nat * string.

(** One-character matchers advance by one when the test holds. *)
Definition char_matcher (p : ascii -> bool) (x : state) : list state :=
  match x.2 with
  | String a rest => if p a then [(S x.1, rest)] else []
  | EmptyString => []
  end.

(** RepeatMatcher for [r*]: greedy, and an iteration that consumes nothing
    is rejected.  [fuel] bounds the number of iterations. *)
Fixpoint repeat_matcher (step : state -> list state) (fuel : nat) (x : state)
  : list state :=
  match fuel with
  | 0 => [x]
  | S fuel' =>
      flat_map (fun y => if (String.length y.2 <? String.length x.2)%nat
                         then repeat_matcher step fuel' y else [])
               (step x) ++ [x]
  end.

Fixpoint ends (r : regex) (x : state) : list state :=
  match r with
  | Eps => [x]
  | Chr c => char_matcher (fun a => Ascii.eqb (canonicalize c) (canonicalize a)) x
  | Dot => char_matcher (fun a => negb (isLineTerminator a)) x
  | Cls cs =>
      char_matcher
        (fun a => existsb (fun c => Ascii.eqb (canonicalize c) (canonicalize a)) cs) x
  | Bol => if (x.1 =? 0)%nat then [x] else []
  | Eol => match x.2 with EmptyString => [x] | String _ _ => [] end
  | Seq r1 r2 => flat_map (ends r2) (ends r1 x)
  | Alt r1 r2 => ends r1 x ++ ends r2 x
  | Opt r' => ends r' x ++ [x]
  | Star r' => repeat_matcher (ends r') (String.length x.2) x
  | NegLook r' => match ends r' x with [] => [x] | _ :: _ => [] end
  end.

Definition matches_at (r : regex) (x : state) : bool :=
  match ends r x with [] => false | _ :: _ => true end.

(** RegExpBuiltinExec without the [g] and [y] flags: try index 0, then
    every later index up to the length of the input. *)
Fixpoint exec (r : regex) (i : nat) (input : string) : bool :=
  if matches_at r (i, input) then true
  else match input with
       | EmptyString => false
       | String _ rest => exec r (S i) rest
       end.

(** [r.test(s)]. *)
Definition test (r : regex) (s : string) : bool := exec r 0 s.

(** Pattern syntax. *)
Fixpoint lit (s : string) : regex :=
  match s with
  | EmptyString => Eps
  | String c EmptyString => Chr c
  | String c s' => Seq (Chr c) (lit s')
  end.

Declare Scope regex_scope.
Delimit Scope regex_scope with re.
Bind Scope regex_scope with regex.
Notation "a +++ b" := (Seq a b) (at level 40, left associativity) : regex_scope.
Notation "a ||| b" := (Alt a b) (at level 50, left associativity) : regex_scope.

End RegExp.

(** ** The scene data of three.js that the two components read *)

Module Three.

(** [THREE.Bone]: the object identity and the mutable [name]. *)
Record Bone : Type := { bone_id : nat; bone_name : string }.

(** [THREE.KeyframeTrack]: the sampled curve is opaque, the [name] mutable. *)
Record KeyframeTrack : Type := { track_curve : nat; track_name : string }.

(** [THREE.AnimationClip]. *)
Record AnimationClip : Type :=
  { clip_name : string; tracks : list KeyframeTrack }.

(** A finite JavaScript number; every finite double is a rational. *)
Definition number : Type := Q.

Record Vector3 : Type := { vec_x : number; vec_y : number; vec_z : number }.

Record Skeleton : Type := { bones : list Bone }.

(** A material, as far as the texture check looks: its class and, for the
    two classes with a colour map, whether [map] is [null] ([None]). *)
Inductive Material : Type :=
| MeshStandardMaterial (map : option nat)
| MeshPhongMaterial (map : option nat)
| OtherMaterial.

(** [THREE.SkinnedMesh].  [skeleton] and [material] may be absent;
    [material] is one material or an array.  [box_size], [box_min] and
    [box_max] are what [new THREE.Box3().setFromObject(mesh)] measures: the
    result of [getSize] and the two corners. *)
Record SkinnedMesh : Type :=
  { skeleton : option Skeleton;
    material : option (Material + list Material);
    box_size : Vector3;
    box_min : Vector3;
    box_max : Vector3 }.

(** [THREE.Object3D]: a node is a skinned mesh or not, and has children. *)
Unset Elimination Schemes.
Inductive Object3D : Type :=
| Object (skinned : option SkinnedMesh) (children : list Object3D).
Set Elimination Schemes.

Definition skinned (o : Object3D) : option SkinnedMesh :=
  match o with Object m _ => m end.

Definition children (o : Object3D) : list Object3D :=
  match o with Object _ cs => cs end.

(** [o.traverse(callback)]: the node itself, then each child in order.
    The callback's effect on the enclosing variables is a state change. *)
Fixpoint traverse {S : Type} (callback : Object3D -> S -> S) (o : Object3D) (s : S)
  : S :=
  match o with
  | Object _ cs => fold_left (fun s' c => traverse callback c s') cs (callback o s)
  end.

(** [THREE.Group] as the loader returns it: the scene graph under the
    group and its [animations], which may be [undefined] ([None]). *)
Record Group : Type :=
  { scene : Object3D; animations : option (list AnimationClip) }.

End Three.

(** ** BoneMapper.ts *)

Module BoneMapper.
Import Js RegExp Three.
Local Open Scope regex_scope.
Local Open Scope char_scope.

Record BonePattern : Type := { pattern : regex; target : string }.

(** The rule table, in priority order.  Every pattern carries the [i] flag,
    which the matcher applies throughout. *)
Definition BONE_PATTERNS : list BonePattern :=
  [ (* /^(armature|root|hips|mixamorig[:_]?hips)$/i *)
    {| pattern := Bol +++ (lit "armature" ||| lit "root" ||| lit "hips"
                           ||| lit "mixamorig" +++ Opt (Cls [":"; "_"]) +++ lit "hips")
                      +++ Eol;
       target := "Hips" |};
    (* /(hips|root|armature)/i *)
    {| pattern := lit "hips" ||| lit "root" ||| lit "armature";
       target := "Hips" |};
    (* /^(spine2|mixamorig:spine2)$/i *)
    {| pattern := Bol +++ (lit "spine2" ||| lit "mixamorig:spine2") +++ Eol;
       target := "Spine2" |};
    (* /^(spine1|mixamorig:spine1)$/i *)
    {| pattern := Bol +++ (lit "spine1" ||| lit "mixamorig:spine1") +++ Eol;
       target := "Spine1" |};
    (* /^(spine|mixamorig:spine)$/i *)
    {| pattern := Bol +++ (lit "spine" ||| lit "mixamorig:spine") +++ Eol;
       target := "Spine" |};
    (* /(spine2|torso2|chest2)/i *)
    {| pattern := lit "spine2" ||| lit "torso2" ||| lit "chest2";
       target := "Spine2" |};
    (* /(spine1|torso1|chest1)/i *)
    {| pattern := lit "spine1" ||| lit "torso1" ||| lit "chest1";
       target := "Spine1" |};
    (* /(spine|chest|torso|upperback|lowerback)/i *)
    {| pattern := lit "spine" ||| lit "chest" ||| lit "torso"
                  ||| lit "upperback" ||| lit "lowerback";
       target := "Spine" |};
    (* /(neck|mixamorig:neck)/i *)
    {| pattern := lit "neck" ||| lit "mixamorig:neck"; target := "Neck" |};
    (* /(head|mixamorig:head)/i *)
    {| pattern := lit "head" ||| lit "mixamorig:head"; target := "Head" |};

    (* /(left.*shoulder|leftshoulder|l_shoulder|mixamorig:leftshoulder)/i *)
    {| pattern := lit "left" +++ Star Dot +++ lit "shoulder" ||| lit "leftshoulder"
                  ||| lit "l_shoulder" ||| lit "mixamorig:leftshoulder";
       target := "LeftShoulder" |};
    (* /(left.*arm(?!fur)|leftarm|l_arm|mixamorig:leftarm)(?!forearm)/i *)
    {| pattern := (lit "left" +++ Star Dot +++ lit "arm" +++ NegLook (lit "fur")
                   ||| lit "leftarm" ||| lit "l_arm" ||| lit "mixamorig:leftarm")
                  +++ NegLook (lit "forearm");
       target := "LeftArm" |};
    (* /(left.*forearm|leftforearm|l_forearm|mixamorig:leftforearm)/i *)
    {| pattern := lit "left" +++ Star Dot +++ lit "forearm" ||| lit "leftforearm"
                  ||| lit "l_forearm" ||| lit "mixamorig:leftforearm";
       target := "LeftForeArm" |};
    (* /(left.*hand|lefthand|l_hand|mixamorig:lefthand)/i *)
    {| pattern := lit "left" +++ Star Dot +++ lit "hand" ||| lit "lefthand"
                  ||| lit "l_hand" ||| lit "mixamorig:lefthand";
       target := "LeftHand" |};

    (* /(right.*shoulder|rightshoulder|r_shoulder|mixamorig:rightshoulder)/i *)
    {| pattern := lit "right" +++ Star Dot +++ lit "shoulder" ||| lit "rightshoulder"
                  ||| lit "r_shoulder" ||| lit "mixamorig:rightshoulder";
       target := "RightShoulder" |};
    (* /(right.*arm(?!fur)|rightarm|r_arm|mixamorig:rightarm)(?!forearm)/i *)
    {| pattern := (lit "right" +++ Star Dot +++ lit "arm" +++ NegLook (lit "fur")
                   ||| lit "rightarm" ||| lit "r_arm" ||| lit "mixamorig:rightarm")
                  +++ NegLook (lit "forearm");
       target := "RightArm" |};
    (* /(right.*forearm|rightforearm|r_forearm|mixamorig:rightforearm)/i *)
    {| pattern := lit "right" +++ Star Dot +++ lit "forearm" ||| lit "rightforearm"
                  ||| lit "r_forearm" ||| lit "mixamorig:rightforearm";
       target := "RightForeArm" |};
    (* /(right.*hand|righthand|r_hand|mixamorig:righthand)/i *)
    {| pattern := lit "right" +++ Star Dot +++ lit "hand" ||| lit "righthand"
                  ||| lit "r_hand" ||| lit "mixamorig:righthand";
       target := "RightHand" |};

    (* /(left.*hip|lefthip|leftupleg|l_hip|l_upleg|mixamorig:leftupleg)/i *)
    {| pattern := lit "left" +++ Star Dot +++ lit "hip" ||| lit "lefthip"
                  ||| lit "leftupleg" ||| lit "l_hip" ||| lit "l_upleg"
                  ||| lit "mixamorig:leftupleg";
       target := "LeftHip" |};
    (* /(left.*leg(?!upleg)|leftleg|l_leg|mixamorig:leftleg)(?!upleg)/i *)
    {| pattern := (lit "left" +++ Star Dot +++ lit "leg" +++ NegLook (lit "upleg")
                   ||| lit "leftleg" ||| lit "l_leg" ||| lit "mixamorig:leftleg")
                  +++ NegLook (lit "upleg");
       target := "LeftLeg" |};
    (* /(left.*foot|leftfoot|l_foot|mixamorig:leftfoot)/i *)
    {| pattern := lit "left" +++ Star Dot +++ lit "foot" ||| lit "leftfoot"
                  ||| lit "l_foot" ||| lit "mixamorig:leftfoot";
       target := "LeftFoot" |};
    (* /(left.*toe|lefttoe|l_toe|mixamorig:lefttoe)/i *)
    {| pattern := lit "left" +++ Star Dot +++ lit "toe" ||| lit "lefttoe"
                  ||| lit "l_toe" ||| lit "mixamorig:lefttoe";
       target := "LeftToe" |};

    (* /(right.*hip|righthip|rightupleg|r_hip|r_upleg|mixamorig:rightupleg)/i *)
    {| pattern := lit "right" +++ Star Dot +++ lit "hip" ||| lit "righthip"
                  ||| lit "rightupleg" ||| lit "r_hip" ||| lit "r_upleg"
                  ||| lit "mixamorig:rightupleg";
       target := "RightHip" |};
    (* /(right.*leg(?!upleg)|rightleg|r_leg|mixamorig:rightleg)(?!upleg)/i *)
    {| pattern := (lit "right" +++ Star Dot +++ lit "leg" +++ NegLook (lit "upleg")
                   ||| lit "rightleg" ||| lit "r_leg" ||| lit "mixamorig:rightleg")
                  +++ NegLook (lit "upleg");
       target := "RightLeg" |};
    (* /(right.*foot|rightfoot|r_foot|mixamorig:rightfoot)/i *)
    {| pattern := lit "right" +++ Star Dot +++ lit "foot" ||| lit "rightfoot"
                  ||| lit "r_foot" ||| lit "mixamorig:rightfoot";
       target := "RightFoot" |};
    (* /(right.*toe|righttoe|r_toe|mixamorig:righttoe)/i *)
    {| pattern := lit "right" +++ Star Dot +++ lit "toe" ||| lit "righttoe"
                  ||| lit "r_toe" ||| lit "mixamorig:righttoe";
       target := "RightToe" |} ].

(** The inner loop of [autoMapBones]: the first rule whose pattern tests
    true sets the entry and breaks. *)
Fixpoint map_bone (rules : list BonePattern) (boneName : string) (mapping : Map)
  : Map :=
  match rules with
  | [] => mapping
  | rule :: rules' =>
      if test (pattern rule) boneName
      then map_set mapping boneName (target rule)
      else map_bone rules' boneName mapping
  end.

(** [autoMapBones(bones)]; the counters only feed the log. *)
Definition autoMapBones (bones : list Bone) : Map :=
  fold_left (fun mapping bone => map_bone BONE_PATTERNS (bone_name bone) mapping)
            bones [].

(** [findBoneByName(bones, name)]: the first bone of that name, as its
    index in the array; [None] stands for [null]. *)
Fixpoint findBoneByName (bones : list Bone) (name : string) : option nat :=
  match bones with
  | [] => None
  | bone :: rest =>
      if String.eqb (bone_name bone) name then Some 0%nat
      else S <$> findBoneByName rest name
  end.

(** [bone.name = standardName]. *)
Definition set_bone_name (standardName : string) (bone : Bone) : Bone :=
  {| bone_id := bone_id bone; bone_name := standardName |}.

(** The body of the [forEach] of [applyMapping]: the bone found under the
    original name is renamed; when none is found only a warning is logged. *)
Definition rename_bone (bones : list Bone) (originalName standardName : string)
  : list Bone :=
  match findBoneByName bones originalName with
  | Some i => alter (set_bone_name standardName) i bones
  | None => bones
  end.

(** [applyMapping(mesh, mapping)], on [mesh.skeleton.bones]. *)
Definition applyMapping (bones : list Bone) (mapping : Map) : list Bone :=
  fold_left
    (fun bones '(originalName, standardName) =>
       rename_bone bones originalName standardName)
    mapping bones.

(** The body of the inner [forEach] of [applyMappingToAnimations]. *)
Definition rename_track (mapping : Map) (track : KeyframeTrack) : KeyframeTrack :=
  match indexOf (track_name track) "." with
  | None => track
  | Some dotIndex =>
      let boneName := substring_to (track_name track) dotIndex in
      let property := substring_from (track_name track) dotIndex in
      match map_get mapping boneName with
      | Some newBoneName =>
          {| track_curve := track_curve track;
             track_name := newBoneName +:+ property |}
      | None => track
      end
  end.

(** [applyMappingToAnimations(animations, mapping)]. *)
Definition applyMappingToAnimations (animations : list AnimationClip) (mapping : Map)
  : list AnimationClip :=
  (fun clip => {| clip_name := clip_name clip;
                  tracks := rename_track mapping <$> tracks clip |})
    <$> animations.

Record BoneValidation : Type :=
  { isValid : bool; missingBones : list string; foundBones : list string }.

Definition requiredBones : list string :=
  ["Hips"; "Spine"; "Head"; "LeftArm"; "RightArm"; "LeftLeg"; "RightLeg"]%string.

(** [validateBones(mesh)], on [mesh.skeleton.bones]. *)
Definition validateBones (bones : list Bone) : BoneValidation :=
  let foundBones :=
    List.filter (fun name => array_includes requiredBones name) (bone_name <$> bones) in
  let missingBones :=
    List.filter (fun name => negb (array_includes foundBones name)) requiredBones in
  {| isValid := (length missingBones =? 0)%nat;
     missingBones := missingBones;
     foundBones := foundBones |}.

(** The target of the first matching rule, if any: what [autoMapBones]
    enters for a bone of that name. *)
Definition classify (boneName : string) : option string :=
  map_get (map_bone BONE_PATTERNS boneName []) boneName.

(** [STANDARD_BONES], as [Object.values] lists it. *)
Definition STANDARD_BONES : list string :=
  ["Hips"; "Spine"; "Spine1"; "Spine2"; "Chest"; "Neck"; "Head";
   "LeftShoulder"; "LeftArm"; "LeftForeArm"; "LeftHand";
   "RightShoulder"; "RightArm"; "RightForeArm"; "RightHand";
   "LeftHip"; "LeftLeg"; "LeftFoot"; "LeftToe";
   "RightHip"; "RightLeg"; "RightFoot"; "RightToe"]%string.

(** [isStandardBone(boneName)]. *)
Definition isStandardBone (boneName : string) : bool :=
  array_includes STANDARD_BONES boneName.

(** The two counters that [autoMapBones] keeps for its log line. *)
Record MappedCount : Type := { success : nat; failed : nat }.

(** The inner loop of [autoMapBones] with its counter: the first rule that
    tests true sets the entry, counts a success and breaks. *)
Fixpoint map_bone_counted (rules : list BonePattern) (boneName : string)
    (st : Map * MappedCount) : Map * MappedCount :=
  match rules with
  | [] => st
  | rule :: rules' =>
      if test (pattern rule) boneName
      then (map_set st.1 boneName (target rule),
            {| success := S (success st.2); failed := failed st.2 |})
      else map_bone_counted rules' boneName st
  end.

(** [autoMapBones(bones)] together with [mappedCount]: after the inner
    loop, a bone whose name the mapping does not hold counts as failed. *)
Definition autoMapBones_counted (bones : list Bone) : Map * MappedCount :=
  fold_left
    (fun st bone =>
       let st := map_bone_counted BONE_PATTERNS (bone_name bone) st in
       if negb (map_has st.1 (bone_name bone))
       then (st.1, {| success := success st.2; failed := S (failed st.2) |})
       else st)
    bones ([], {| success := 0; failed := 0 |}).

(** The three counts of [getBoneStatistics(mesh)], on
    [mesh.skeleton.bones].  Its fourth field, [standardPercentage], is a
    floating-point quotient printed by [toFixed] and is left out. *)
Record BoneStatistics : Type :=
  { totalBones : nat; standardBones : nat; nonStandardBones : nat }.

Definition getBoneStatistics (bones : list Bone) : BoneStatistics :=
  let standardBones := List.filter (fun b => isStandardBone (bone_name b)) bones in
  {| totalBones := length bones;
     standardBones := length standardBones;
     nonStandardBones := length bones - length standardBones |}.

End BoneMapper.


(** ** FBXValidator *)

Module FBXValidator.
Import Js Three.

Record Info : Type :=
  { hasMesh : bool;
    meshType : option string;
    boneCount : nat;
    animationCount : nat;
    hasTextures : bool;
    meshSize : option Vector3;
    meshBounds : option (Vector3 * Vector3) }.

Record FBXValidationResult : Type :=
  { isValid : bool;
    errors : list string;
    warnings : list string;
    info : Info }.

Definition REQUIRED_BONES : list string :=
  ["Hips"; "Spine"; "Head"; "LeftArm"; "RightArm"; "LeftLeg"; "RightLeg"].

Definition MIN_BONE_COUNT : nat := 20.

(** The number literal [0.1]: the double nearest to one tenth. *)
Definition tenth : number := (3602879701896397 # 36028797018963968)%Q.

(** [a < b] on numbers. *)
Definition number_lt (a b : number) : bool := negb (Qle_bool b a).

(** [n.toFixed(2)], following the steps of Number.prototype.toFixed for a
    value below 10^21 (above it the built-in prints an exponent). *)
Definition toFixed2 (n : number) : string :=
  let s := if number_lt n 0%Q then "-" else "" in
  let n := Qabs n in
  let m := pretty (Qfloor (n * 100 + (1 # 2))%Q) in
  let m := if (String.length m <=? 2)%nat
           then substring_from "000" (String.length m) +:+ m else m in
  let k := String.length m in
  s +:+ substring_to m (k - 2) +:+ "." +:+ substring_from m (k - 2).

(** [n.toFixed(2)] on every number.  Number.prototype.toFixed takes the sign
    off, and from 10^21 on hands the absolute value to ToString, which prints
    an exponent form; that form is [exponent] here. *)
Definition toFixed2_in (exponent : number -> string) (n : number) : string :=
  let s := if number_lt n 0%Q then "-" else "" in
  if number_lt (Qabs n) (10 ^ 21)%Q then toFixed2 n else s +:+ exponent (Qabs n).

(** [`${size.x.toFixed(2)} x ${size.y.toFixed(2)} x ${size.z.toFixed(2)}`],
    with [fixed] for [toFixed(2)]. *)
Definition show_size_in (fixed : number -> string) (size : Vector3) : string :=
  fixed (vec_x size) +:+ " x " +:+ fixed (vec_y size) +:+ " x "
  +:+ fixed (vec_z size).

(** The same with the digits of [toFixed2]. *)
Definition show_size (size : Vector3) : string :=
  toFixed2 (vec_x size) +:+ " x " +:+ toFixed2 (vec_y size) +:+ " x "
  +:+ toFixed2 (vec_z size).

(** The callback of the traversal: every skinned mesh met is assigned to
    [mesh], and the info record is marked. *)
Definition visit (child : Object3D) (st : option SkinnedMesh * Info)
  : option SkinnedMesh * Info :=
  match skinned child with
  | Some m =>
      (Some m,
       {| hasMesh := true; meshType := Some "SkinnedMesh";
          boneCount := boneCount st.2; animationCount := animationCount st.2;
          hasTextures := hasTextures st.2; meshSize := meshSize st.2;
          meshBounds := meshBounds st.2 |})
  | None => st
  end.

Definition set_measure (i : Info) (size : Vector3) (lo hi : Vector3) : Info :=
  {| hasMesh := hasMesh i; meshType := meshType i; boneCount := boneCount i;
     animationCount := animationCount i; hasTextures := hasTextures i;
     meshSize := Some size; meshBounds := Some (lo, hi) |}.

Definition set_boneCount (i : Info) (n : nat) : Info :=
  {| hasMesh := hasMesh i; meshType := meshType i; boneCount := n;
     animationCount := animationCount i; hasTextures := hasTextures i;
     meshSize := meshSize i; meshBounds := meshBounds i |}.

Definition set_animationCount (i : Info) (n : nat) : Info :=
  {| hasMesh := hasMesh i; meshType := meshType i; boneCount := boneCount i;
     animationCount := n; hasTextures := hasTextures i;
     meshSize := meshSize i; meshBounds := meshBounds i |}.

Definition set_hasTextures (i : Info) (b : bool) : Info :=
  {| hasMesh := hasMesh i; meshType := meshType i; boneCount := boneCount i;
     animationCount := animationCount i; hasTextures := b;
     meshSize := meshSize i; meshBounds := meshBounds i |}.

Definition mixamoBones : list string :=
  ["mixamorigHips"; "mixamorigSpine"; "mixamorigHead";
   "mixamorigLeftArm"; "mixamorigRightArm";
   "mixamorigLeftUpLeg"; "mixamorigRightUpLeg"].

(** [mat.map !== null] for the two classes with a colour map. *)
Definition has_map (mat : Material) : bool :=
  match mat with
  | MeshStandardMaterial m | MeshPhongMaterial m =>
      match m with Some _ => true | None => false end
  | OtherMaterial => false
  end.

Definition initial_info : Info :=
  {| hasMesh := false; meshType := None; boneCount := 0; animationCount := 0;
     hasTextures := false; meshSize := None; meshBounds := None |}.

(** The validator from step 2 on, once [mesh] is known and measured, with
    [fixed] for [toFixed(2)].  [push] is [++ [...]]; a [return] ends the
    function with the record built there. *)
Definition validate_mesh_in (fixed : number -> string)
    (fbx : Group) (mesh : SkinnedMesh) (info : Info)
  : FBXValidationResult :=
  let errors : list string := [] in
  let warnings : list string := [] in
  (* 2. mesh size *)
  let size := box_size mesh in
  let info := set_measure info size (box_min mesh) (box_max mesh) in
  let errors :=
    if Qeq_bool (vec_x size) 0%Q || Qeq_bool (vec_y size) 0%Q
       || Qeq_bool (vec_z size) 0%Q
    then errors ++ ["❌ CRITICAL: Mesh has zero size in one or more dimensions";
                    "   → Size: " +:+ show_size_in fixed size]
    else errors in
  let warnings :=
    if number_lt (vec_y size) tenth
    then warnings ++ ["⚠️  Mesh is very small (height < 0.1 units)";
                      "   → Current size: " +:+ show_size_in fixed size;
                      "   → Will be scaled up automatically"]
    else warnings in
  (* 3. skeleton *)
  match skeleton mesh with
  | None =>
      {| isValid := false;
         errors := errors ++ ["❌ CRITICAL: Mesh has no skeleton";
                              "   → This is not a rigged character"];
         warnings := warnings; info := info |}
  | Some skel =>
      let bones := bones skel in
      let info := set_boneCount info (length bones) in
      if (length bones =? 0)%nat then
        {| isValid := false;
           errors := errors ++ ["❌ CRITICAL: Skeleton has no bones"];
           warnings := warnings; info := info |}
      else
        let errors :=
          if (length bones <? MIN_BONE_COUNT)%nat
          then errors ++
               ["❌ CRITICAL: Too few bones (" +:+ pretty (length bones) +:+ " < "
                  +:+ pretty MIN_BONE_COUNT +:+ ")";
                "   → This model appears to be incomplete or corrupted";
                "   → Expected at least " +:+ pretty MIN_BONE_COUNT
                  +:+ " bones for a full character"]
          else errors in
        (* 4. bone names *)
        let boneNames := bone_name <$> bones in
        let hasMixamoPrefix :=
          existsb (fun name => includes (toLowerCase name) "mixamorig") boneNames in
        let missingBones :=
          List.filter (fun boneName => negb (array_includes boneNames boneName))
                      (if hasMixamoPrefix then mixamoBones else REQUIRED_BONES) in
        let warnings :=
          if (0 <? length missingBones)%nat
          then warnings ++
               ["⚠️  Missing some expected bones: "
                  +:+ join ", " (take 3 missingBones)
                  +:+ (if (3 <? length missingBones)%nat then "..." else "");
                "   → Animation may not work correctly"]
          else warnings in
        (* 5. animations *)
        let info :=
          set_animationCount info
            (match animations fbx with Some a => length a | None => 0%nat end) in
        let warnings :=
          if (animationCount info =? 0)%nat
          then warnings ++ ["⚠️  No animations found in FBX file";
                            "   → Character will be static (T-pose)"]
          else warnings in
        (* 6. textures *)
        let '(info, warnings) :=
          match material mesh with
          | Some mat =>
              let materials := match mat with inl m => [m] | inr ms => ms end in
              let info := set_hasTextures info (existsb has_map materials) in
              (info,
               if negb (hasTextures info)
               then warnings ++ ["⚠️  No textures found";
                                 "   → Character will use default material colors"]
               else warnings)
          | None => (info, warnings)
          end in
        {| isValid := (length errors =? 0)%nat;
           errors := errors; warnings := warnings; info := info |}
  end.

(** The same for sizes that [toFixed] prints in digits. *)
Definition validate_mesh (fbx : Group) (mesh : SkinnedMesh) (info : Info)
  : FBXValidationResult :=
  validate_mesh_in toFixed2 fbx mesh info.

(** [FBXValidator.validateFBXGroup(fbx)], for a mesh that three.js measures
    and sizes that [toFixed] prints in digits. *)
Definition validateFBXGroup (fbx : Group) : FBXValidationResult :=
  (* 1. find the skinned mesh *)
  let '(mesh, info) := traverse visit (scene fbx) (None, initial_info) in
  match mesh with
  | None =>
      {| isValid := false;
         errors := ["❌ CRITICAL: No SkinnedMesh found in FBX file";
                    "   → This file cannot be used for character rigging"];
         warnings := []; info := info |}
  | Some mesh => validate_mesh fbx mesh info
  end.

(** [FBXValidator.validateFBXGroup(fbx)] in full, with the two things that
    are the platform's own.  Step 2 calls three.js,
    [new THREE.Box3().setFromObject(mesh)], and [measures mesh] says whether
    that call returns for the mesh: where it returns, the box is the one the
    mesh holds in [box_size], [box_min] and [box_max] and the validator goes
    on; where it throws (a release that measures a skinned mesh through its
    skeleton does so when there is none to read), the exception leaves
    [validateFBXGroup], which has no handler: [None].  [exponent] is the
    form [toFixed] prints from 10^21 on. *)
Definition validateFBXGroup_in (measures : SkinnedMesh -> bool)
    (exponent : number -> string) (fbx : Group)
  : option FBXValidationResult :=
  (* 1. find the skinned mesh *)
  let '(mesh, info) := traverse visit (scene fbx) (None, initial_info) in
  match mesh with
  | None =>
      Some {| isValid := false;
              errors := ["❌ CRITICAL: No SkinnedMesh found in FBX file";
                         "   → This file cannot be used for character rigging"];
              warnings := []; info := info |}
  | Some mesh =>
      (* 2. mesh size *)
      if measures mesh
      then Some (validate_mesh_in (toFixed2_in exponent) fbx mesh info)
      else None
  end.

End FBXValidator.

(** ** CharacterLoader *)

Module CharacterLoader.
Import Js Three.

(** [CharacterAsset].  [skeleton] is [mesh.skeleton], which may be absent;
    [mixer] is the [AnimationMixer], known by the root object it animates. *)
Record CharacterAsset : Type :=
  { mesh : SkinnedMesh;
    skeleton : option Skeleton;
    animations : list AnimationClip;
    mixer : SkinnedMesh;
    rawFbx : Group }.

(** The callback of the loader's traversal: every skinned mesh met is
    assigned to [mesh]. *)
Definition visit (child : Object3D) (mesh : option SkinnedMesh) : option SkinnedMesh :=
  match skinned child with
  | Some m => Some m
  | None => mesh
  end.

(** [loadCharacter(fbxUrl)] from the point where [loadAsync] has delivered
    [fbx].  [inl] carries the message of the error thrown: the one raised
    inside the [try] is caught and thrown again under the URL. *)
Definition loadCharacter (fbxUrl : string) (fbx : Group) : string + CharacterAsset :=
  match traverse visit (scene fbx) None with
  | None =>
      inl ("Failed to load character from " +:+ fbxUrl +:+ ": "
           +:+ "No SkinnedMesh found in FBX")
  | Some mesh =>
      inr {| mesh := mesh;
             skeleton := Three.skeleton mesh;
             animations := match Three.animations fbx with Some a => a | None => [] end;
             mixer := mesh;
             rawFbx := fbx |}
  end.

(** [getAnimationNames(character)]. *)
Definition getAnimationNames (character : CharacterAsset) : list string :=
  clip_name <$> animations character.

End CharacterLoader.


(** ** Notions used in the statements *)

Import Js RegExp Three BoneMapper.

(** A string with every code unit in canonical (upper) case. *)
Fixpoint canon_string (s : string) : string :=
  match s with
  | EmptyString => EmptyString
  | String c s' => String (canonicalize c) (canon_string s')
  end.

(** A matcher state with its remaining input in canonical case. *)
Definition canon_state (x : state) : state := (x.1, canon_string x.2).

(** Patterns built from literals, classes, sequence, alternation and [?]
    only: they match finitely many strings up to case, listed by [words]. *)
Fixpoint simple (r : regex) : bool :=
  match r with
  | Eps | Chr _ | Cls _ => true
  | Seq r1 r2 | Alt r1 r2 => simple r1 && simple r2
  | Opt r' => simple r'
  | Dot | Bol | Eol | Star _ | NegLook _ => false
  end.

Fixpoint words (r : regex) : list string :=
  match r with
  | Eps => [""]
  | Chr c => [String (canonicalize c) ""]
  | Cls cs => map (fun c => String (canonicalize c) "") cs
  | Seq r1 r2 => flat_map (fun w1 => map (fun w2 => w1 +:+ w2) (words r2)) (words r1)
  | Alt r1 r2 => words r1 ++ words r2
  | Opt r' => words r' ++ [""]
  | Dot | Bol | Eol | Star _ | NegLook _ => []
  end.

(** An exact-match rule is anchored at both ends: [^(...)$]. *)
Definition exact (r : regex) : bool :=
  match r with
  | Seq (Seq Bol body) Eol => simple body
  | _ => false
  end.

(** The strings, in canonical case, that an exact-match rule accepts. *)
Definition exact_words (r : regex) : list string :=
  match r with
  | Seq (Seq Bol body) Eol => if simple body then words body else []
  | _ => []
  end.

(** The check that each exact-match rule of a table is the first to fire on
    every string it accepts. *)
Definition exact_rules_first (rules : list BonePattern) : bool :=
  forallb
    (fun rule =>
       forallb
         (fun w =>
            bool_decide
              (target <$> List.find (fun rule' => test (pattern rule') w) rules
               = Some (target rule)))
         (exact_words (pattern rule)))
    rules.

(** A bone object of a given name. *)
Definition bone (id : nat) (name : string) : Bone :=
  {| bone_id := id; bone_name := name |}.

(** A bone under the name the mapping gives it, if any. *)
Definition canonical_name (mapping : Map) (b : Bone) : Bone :=
  match map_get mapping (bone_name b) with
  | Some standardName => set_bone_name standardName b
  | None => b
  end.

(** No entry renames a bone to a name that is itself a key renamed to
    something else. *)
Definition no_chained_rename (mapping : Map) : bool :=
  forallb
    (fun entry =>
       match map_get mapping entry.2 with
       | Some standardName => bool_decide (standardName = entry.2)
       | None => true
       end)
    mapping.

(** The nodes of a scene graph in the order [traverse] visits them. *)
Fixpoint preorder (o : Object3D) : list Object3D :=
  match o with
  | Object _ cs => o :: flat_map preorder cs
  end.

(** The last skinned mesh that the traversal of an asset meets. *)
Definition selected_mesh (fbx : Group) : option SkinnedMesh :=
  last (omap skinned (preorder (scene fbx))).

(** The first skinned mesh that the traversal of an asset meets. *)
Definition first_mesh (fbx : Group) : option SkinnedMesh :=
  head (omap skinned (preorder (scene fbx))).

(** An asset made of one skinned mesh and the animations of another asset. *)
Definition only_mesh (fbx : Group) (mesh : SkinnedMesh) : Group :=
  {| scene := Object (Some mesh) []; animations := animations fbx |}.

(** A bounding box with no extent along some axis. *)
Definition degenerate (size : Vector3) : bool :=
  Qeq_bool (vec_x size) 0%Q || Qeq_bool (vec_y size) 0%Q || Qeq_bool (vec_z size) 0%Q.

(** The info record once a skinned mesh has been met. *)
Definition mesh_met (i : FBXValidator.Info) : FBXValidator.Info :=
  {| FBXValidator.hasMesh := true;
     FBXValidator.meshType := Some "SkinnedMesh";
     FBXValidator.boneCount := FBXValidator.boneCount i;
     FBXValidator.animationCount := FBXValidator.animationCount i;
     FBXValidator.hasTextures := FBXValidator.hasTextures i;
     FBXValidator.meshSize := FBXValidator.meshSize i;
     FBXValidator.meshBounds := FBXValidator.meshBounds i |}.

(** A skeleton of [n] bones, none of them with a known name. *)
Definition rig (n : nat) : Skeleton :=
  {| bones := (fun i => bone i "joint") <$> seq 0 n |}.

(** A skinned mesh of one unit along each axis, with no material. *)
Definition unit_mesh (skel : option Skeleton) : SkinnedMesh :=
  {| skeleton := skel; material := None;
     box_size := {| vec_x := 1%Q; vec_y := 1%Q; vec_z := 1%Q |};
     box_min := {| vec_x := 0%Q; vec_y := 0%Q; vec_z := 0%Q |};
     box_max := {| vec_x := 1%Q; vec_y := 1%Q; vec_z := 1%Q |} |}.


(** A bone name that some rule of the table matches. *)
Definition classified (boneName : string) : bool :=
  match classify boneName with Some _ => true | None => false end.

(** A string without the separator of track names. *)
Definition dotless (s : string) : bool :=
  match indexOf s "." with Some _ => false | None => true end.

(** Some bone name holds [mixamorig], in whatever letter case. *)
Definition uses_mixamo_names (boneNames : list string) : bool :=
  existsb (fun name => includes (toLowerCase name) "mixamorig") boneNames.

(** The names the validator expects and does not find: the Mixamo names
    when the skeleton uses them, the required names otherwise. *)
Definition missing_expected (boneNames : list string) : list string :=
  List.filter (fun boneName => negb (array_includes boneNames boneName))
              (if uses_mixamo_names boneNames
               then FBXValidator.mixamoBones else FBXValidator.REQUIRED_BONES).

(** A three.js that measures the geometry alone: the call always returns. *)
Definition measures_geometry (mesh : SkinnedMesh) : bool := true.


(** A stand-in for the exponent form of [toFixed] in the examples: their
    sizes are all below 10^21, where that form is not asked for. *)
Definition exponent_unused (n : number) : string := "".

(** A size that [toFixed] prints in plain digits: every extent is below
    10^21 in absolute value. *)
Definition printable (size : Vector3) : bool :=
  FBXValidator.number_lt (Qabs (vec_x size)) (10 ^ 21)%Q
  && FBXValidator.number_lt (Qabs (vec_y size)) (10 ^ 21)%Q
  && FBXValidator.number_lt (Qabs (vec_z size)) (10 ^ 21)%Q.

(** The elements of a list, each at the place where it first occurs. *)
Fixpoint first_occurrences (l : list string) : list string :=
  match l with
  | [] => []
  | x :: l' => x :: List.filter (fun y => negb (String.eqb x y)) (first_occurrences l')
  end.

(** ** Facts about the matcher *)

Section Matcher.

Lemma canonicalize_idemp c : canonicalize (canonicalize c) = canonicalize c.
Proof. destruct c as [[] [] [] [] [] [] [] []]; reflexivity. Qed.

Lemma isLineTerminator_canonicalize c :
  isLineTerminator (canonicalize c) = isLineTerminator c.
Proof. destruct c as [[] [] [] [] [] [] [] []]; reflexivity. Qed.

Lemma canon_string_idemp s : canon_string (canon_string s) = canon_string s.
Proof. induction s as [|c s IH]; simpl; [done|]. by rewrite canonicalize_idemp, IH. Qed.

Lemma canon_string_length s : String.length (canon_string s) = String.length s.
Proof. induction s as [|c s IH]; simpl; congruence. Qed.

Lemma canon_string_app s1 s2 :
  canon_string (s1 +:+ s2) = canon_string s1 +:+ canon_string s2.
Proof. induction s1 as [|c s1 IH]; simpl; [done|]. by rewrite IH. Qed.

Lemma flat_map_fmap {A B C} (f : B -> list C) (g : A -> B) (l : list A) :
  flat_map f (g <$> l) = flat_map (fun a => f (g a)) l.
Proof. induction l as [|a l IH]; [done|]. rewrite fmap_cons. simpl. by rewrite IH. Qed.

Lemma fmap_flat_map {A B C} (f : A -> list B) (g : B -> C) (l : list A) :
  g <$> flat_map f l = flat_map (fun a => g <$> f a) l.
Proof. induction l as [|a l IH]; [done|]. simpl flat_map. by rewrite fmap_app, IH. Qed.

Lemma flat_map_ext_all {A B} (f g : A -> list B) (l : list A) :
  (forall a, f a = g a) -> flat_map f l = flat_map g l.
Proof. intros E. induction l as [|a l IH]; simpl; [done|]. by rewrite E, IH. Qed.

Lemma char_matcher_canon p x :
  (forall a, p (canonicalize a) = p a) ->
  char_matcher p (canon_state x) = canon_state <$> char_matcher p x.
Proof.
  intros Hp. destruct x as [i [|a rest]]; unfold char_matcher; simpl; [done|].
  rewrite Hp. by destruct (p a).
Qed.

Lemma repeat_matcher_canon step fuel x :
  (forall y, step (canon_state y) = canon_state <$> step y) ->
  repeat_matcher step fuel (canon_state x)
  = canon_state <$> repeat_matcher step fuel x.
Proof.
  intros Hs. revert x. induction fuel as [|fuel IH]; intros x; simpl; [done|].
  rewrite Hs, fmap_app, flat_map_fmap, fmap_flat_map. f_equal.
  apply flat_map_ext_all. intros y. simpl.
  rewrite !canon_string_length.
  destruct (_ <? _)%nat; [apply IH | done].
Qed.

(** The bound on the iterations of [r*] is never reached: any fuel from the
    length of the remaining input on gives the same end states. *)
Lemma repeat_matcher_fuel step fuel1 fuel2 x :
  (String.length x.2 <= fuel1)%nat -> (String.length x.2 <= fuel2)%nat ->
  repeat_matcher step fuel1 x = repeat_matcher step fuel2 x.
Proof.
  revert fuel2 x. induction fuel1 as [|fuel1 IH]; intros [|fuel2] x H1 H2;
    cbn [repeat_matcher]; [done| | |].
  - replace (flat_map _ (step x)) with (@nil state); [done|].
    symmetry. induction (step x) as [|y ys IHys]; [done|].
    cbn [flat_map]. rewrite IHys.
    by replace (String.length y.2 <? String.length x.2)%nat with false
      by (symmetry; apply Nat.ltb_ge; lia).
  - replace (flat_map _ (step x)) with (@nil state); [done|].
    symmetry. induction (step x) as [|y ys IHys]; [done|].
    cbn [flat_map]. rewrite IHys.
    by replace (String.length y.2 <? String.length x.2)%nat with false
      by (symmetry; apply Nat.ltb_ge; lia).
  - f_equal. apply flat_map_ext_all. intros y.
    destruct (String.length y.2 <? String.length x.2)%nat eqn:E; [|done].
    apply Nat.ltb_lt in E. apply IH; lia.
Qed.

Lemma star_fuel r fuel x :
  (String.length x.2 <= fuel)%nat -> repeat_matcher (ends r) fuel x = ends (Star r) x.
Proof. intros H. by apply repeat_matcher_fuel. Qed.

(** Matching does not look at the case of the input. *)
Lemma ends_canon r x : ends r (canon_state x) = canon_state <$> ends r x.
Proof.
  revert x. induction r as [|c| |cs| | |r1 IH1 r2 IH2|r1 IH1 r2 IH2|r IH|r IH|r IH];
    intros x; simpl.
  - done.
  - apply char_matcher_canon. intros a. by rewrite canonicalize_idemp.
  - apply char_matcher_canon. intros a. by rewrite isLineTerminator_canonicalize.
  - apply char_matcher_canon. intros a. by rewrite canonicalize_idemp.
  - by destruct (_ =? _)%nat.
  - by destruct x as [i [|a rest]].
  - rewrite IH1, flat_map_fmap, fmap_flat_map. by apply flat_map_ext_all.
  - by rewrite IH1, IH2, fmap_app.
  - by rewrite IH, fmap_app.
  - rewrite canon_string_length. by apply repeat_matcher_canon.
  - rewrite IH. by destruct (ends r x).
Qed.

Lemma matches_at_canon r x : matches_at r (canon_state x) = matches_at r x.
Proof. unfold matches_at. rewrite ends_canon. by destruct (ends r x). Qed.

Lemma exec_canon r i s : exec r i (canon_string s) = exec r i s.
Proof.
  revert i. induction s as [|c s IH]; intros i; simpl.
  - done.
  - change (i, String (canonicalize c) (canon_string s))
      with (canon_state (i, String c s)).
    rewrite matches_at_canon. by rewrite IH.
Qed.

Lemma test_canon r s : test r (canon_string s) = test r s.
Proof. apply exec_canon. Qed.

End Matcher.

Section SimplePatterns.

Lemma elem_of_flat_map {A B} (f : A -> list B) (l : list A) (b : B) :
  b ∈ flat_map f l <-> exists a, a ∈ l /\ b ∈ f a.
Proof.
  rewrite list_elem_of_In, in_flat_map.
  by setoid_rewrite list_elem_of_In.
Qed.

Lemma string_app_cons c (s t : string) : String c s +:+ t = String c (s +:+ t).
Proof. reflexivity. Qed.

Lemma string_app_nil (s : string) : s +:+ "" = s.
Proof. induction s as [|c s IH]; [done|]. rewrite string_app_cons. congruence. Qed.

Lemma string_app_assoc (s1 s2 s3 : string) : (s1 +:+ s2) +:+ s3 = s1 +:+ (s2 +:+ s3).
Proof.
  induction s1 as [|c s1 IH]; [done|]. rewrite !string_app_cons. congruence.
Qed.

Lemma char_matcher_elem p x y :
  y ∈ char_matcher p x ->
  exists a, p a = true /\ x.2 = String a y.2 /\ y.1 = S x.1.
Proof.
  destruct x as [i [|a rest]]; unfold char_matcher; simpl.
  - by intros ?%elem_of_nil.
  - destruct (p a) eqn:E; [|by intros ?%elem_of_nil].
    intros ->%list_elem_of_singleton. by exists a.
Qed.

(** A simple pattern consumes, up to case, one of its [words]. *)
Lemma ends_simple r x y :
  simple r = true -> y ∈ ends r x ->
  exists w, w ∈ words r /\ canon_string x.2 = w +:+ canon_string y.2.
Proof.
  revert x y.
  induction r as [|c| |cs| | |r1 IH1 r2 IH2|r1 IH1 r2 IH2|r IH|r IH|r IH];
    intros x y Hs Hy; simpl in *; try discriminate.
  - apply list_elem_of_singleton in Hy as ->. exists "". split; [|done].
    by apply list_elem_of_singleton.
  - apply char_matcher_elem in Hy as (a & Ha & Hx & _).
    apply Ascii.eqb_eq in Ha. exists (String (canonicalize c) "").
    split; [by apply list_elem_of_singleton|]. rewrite Hx. simpl. by rewrite Ha.
  - apply char_matcher_elem in Hy as (a & Ha & Hx & _).
    apply existsb_exists in Ha as (c & Hc & Ha). apply Ascii.eqb_eq in Ha.
    exists (String (canonicalize c) ""). split.
    + apply list_elem_of_fmap. exists c. split; [done|]. by apply list_elem_of_In.
    + rewrite Hx. simpl. by rewrite Ha.
  - apply andb_true_iff in Hs as [Hs1 Hs2].
    apply elem_of_flat_map in Hy as (z & Hz & Hy).
    destruct (IH1 _ _ Hs1 Hz) as (w1 & Hw1 & E1).
    destruct (IH2 _ _ Hs2 Hy) as (w2 & Hw2 & E2).
    exists (w1 +:+ w2). split.
    + apply elem_of_flat_map. exists w1. split; [done|].
      apply list_elem_of_fmap. by exists w2.
    + by rewrite E1, E2, string_app_assoc.
  - apply andb_true_iff in Hs as [Hs1 Hs2].
    apply elem_of_app in Hy as [Hy|Hy].
    + destruct (IH1 _ _ Hs1 Hy) as (w & Hw & E). exists w. split; [|done].
      apply elem_of_app. by left.
    + destruct (IH2 _ _ Hs2 Hy) as (w & Hw & E). exists w. split; [|done].
      apply elem_of_app. by right.
  - apply elem_of_app in Hy as [Hy|Hy].
    + destruct (IH _ _ Hs Hy) as (w & Hw & E). exists w. split; [|done].
      apply elem_of_app. by left.
    + apply list_elem_of_singleton in Hy as ->. exists "". split; [|done].
      apply elem_of_app. right. by apply list_elem_of_singleton.
Qed.

Lemma exec_anchored_later body i s :
  (0 < i)%nat -> exec (Seq (Seq Bol body) Eol) i s = false.
Proof.
  revert i. induction s as [|c s IH]; intros i Hi.
  - simpl. unfold matches_at. simpl.
    destruct i; [lia|]. done.
  - simpl. unfold matches_at at 1. simpl.
    destruct i; [lia|]. simpl. apply IH. lia.
Qed.

(** An anchored simple pattern only accepts, up to case, its [words]. *)
Lemma test_exact r body s :
  r = Seq (Seq Bol body) Eol -> simple body = true ->
  test r s = true -> canon_string s ∈ words body.
Proof.
  intros -> Hs Ht. unfold test in Ht.
  assert (matches_at (Seq (Seq Bol body) Eol) (0%nat, s) = true) as Hm.
  { destruct s as [|c s]; simpl in Ht.
    - by destruct (matches_at _ _).
    - destruct (matches_at _ _); [done|].
      rewrite exec_anchored_later in Ht by lia. done. }
  unfold matches_at in Hm.
  destruct (ends _ _) as [|y ys] eqn:E; [done|].
  assert (y ∈ ends (Seq (Seq Bol body) Eol) (0%nat, s)) as Hy
    by (rewrite E; apply list_elem_of_here).
  simpl in Hy. rewrite app_nil_r in Hy.
  apply elem_of_flat_map in Hy as (z & Hz & Hy).
  destruct (ends_simple _ _ _ Hs Hz) as (w & Hw & Ew). simpl in Ew.
  destruct z as [j [|c rest]]; simpl in *.
  - by rewrite string_app_nil in Ew; subst.
  - by apply elem_of_nil in Hy.
Qed.

End SimplePatterns.

(** ** Facts about maps *)

Section Maps.

Lemma map_get_set m k v k' :
  map_get (map_set m k v) k' = if String.eqb k k' then Some v else map_get m k'.
Proof.
  induction m as [|[k0 v0] m IH]; simpl; [done|].
  destruct (String.eqb_spec k0 k) as [->|Hne]; simpl.
  - by destruct (String.eqb_spec k k').
  - rewrite IH. destruct (String.eqb_spec k0 k') as [->|]; [|done].
    by destruct (String.eqb_spec k k').
Qed.

Lemma map_has_get m k : map_has m k = true <-> exists v, map_get m k = Some v.
Proof.
  unfold map_has. destruct (map_get m k); split; eauto; try done. by intros [? ?].
Qed.

End Maps.

(** ** Classification *)

Section Classification.

Lemma map_bone_find rules boneName mapping :
  map_bone rules boneName mapping
  = match List.find (fun rule => test (pattern rule) boneName) rules with
    | Some rule => map_set mapping boneName (target rule)
    | None => mapping
    end.
Proof.
  induction rules as [|rule rules IH]; simpl; [done|].
  by destruct (test (pattern rule) boneName).
Qed.

(** First match wins: the target is that of the first rule that tests
    true, and no later rule is looked at. *)
Lemma classify_find boneName :
  classify boneName
  = target <$> List.find (fun rule => test (pattern rule) boneName) BONE_PATTERNS.
Proof.
  unfold classify. rewrite map_bone_find.
  destruct (List.find _ _); simpl; [|done]. by rewrite String.eqb_refl.
Qed.

Lemma classify_canon boneName : classify (canon_string boneName) = classify boneName.
Proof.
  rewrite !classify_find. f_equal.
  induction BONE_PATTERNS as [|rule rules IH]; simpl; [done|].
  by rewrite test_canon, IH.
Qed.

Lemma map_bone_get boneName acc k :
  map_get (map_bone BONE_PATTERNS boneName acc) k
  = if String.eqb boneName k
    then match classify boneName with Some t => Some t | None => map_get acc k end
    else map_get acc k.
Proof.
  rewrite map_bone_find, classify_find.
  destruct (List.find _ _); simpl.
  - rewrite map_get_set. by destruct (String.eqb _ _).
  - by destruct (String.eqb _ _).
Qed.

Lemma autoMapBones_acc bones acc k :
  map_get (fold_left (fun mapping bone => map_bone BONE_PATTERNS (bone_name bone) mapping)
                     bones acc) k
  = match (if bool_decide (k ∈ bone_name <$> bones) then classify k else None) with
    | Some t => Some t
    | None => map_get acc k
    end.
Proof.
  revert acc. induction bones as [|b bones IH]; intros acc; [done|].
  cbn [fold_left]. rewrite IH, fmap_cons, map_bone_get.
  destruct (String.eqb_spec (bone_name b) k) as [->|Hne].
  - rewrite (bool_decide_eq_true_2 (_ ∈ _ :: _)) by apply list_elem_of_here.
    case_bool_decide; by destruct (classify _).
  - case_bool_decide as H1; case_bool_decide as H2; try done.
    + exfalso. apply H2. by apply list_elem_of_further.
    + exfalso. apply H1. by apply elem_of_cons in H2 as [?|?].
Qed.

(** What [autoMapBones] holds under a name: the classification of the
    name when some bone carries it, nothing otherwise. *)
Lemma autoMapBones_get bones k :
  map_get (autoMapBones bones) k
  = if bool_decide (k ∈ bone_name <$> bones) then classify k else None.
Proof.
  unfold autoMapBones. rewrite autoMapBones_acc. simpl.
  by destruct (if bool_decide _ then _ else _).
Qed.

End Classification.

(** ** The rule table *)

Section RuleTable.

Lemma test_exact_words r s :
  exact r = true -> test r s = true -> canon_string s ∈ exact_words r.
Proof.
  intros He Ht.
  destruct r as [| | | | | |r1 r2| | | |]; try discriminate.
  destruct r1 as [| | | | | |r11 body| | | |]; try discriminate.
  destruct r11; try discriminate. destruct r2; try discriminate.
  simpl in He |- *. rewrite He. by eapply test_exact.
Qed.

Lemma exact_rules_first_table : exact_rules_first BONE_PATTERNS = true.
Proof. vm_compute. reflexivity. Qed.

Lemma exact_rule_classifies rule w :
  rule ∈ BONE_PATTERNS -> w ∈ exact_words (pattern rule) ->
  classify w = Some (target rule).
Proof.
  intros Hr Hw. pose proof exact_rules_first_table as H.
  unfold exact_rules_first in H. rewrite forallb_forall in H.
  apply list_elem_of_In in Hr. specialize (H _ Hr).
  rewrite forallb_forall in H. apply list_elem_of_In in Hw. specialize (H _ Hw).
  apply bool_decide_eq_true_1 in H. by rewrite classify_find.
Qed.

End RuleTable.

(** C3. Priority invariant: a bone name accepted by an exact-match rule
    (a rule anchored at both ends) is mapped by [autoMapBones] to that rule's
    target, whatever looser rules it also matches, since the first rule of
    the table that matches decides; in particular a bone named [Spine1] is
    mapped to [Spine1], never to [Spine]. *)
Theorem priority_invariant :
  (forall (rule : BonePattern) (boneName : string) (bones : list Bone),
      rule ∈ BONE_PATTERNS -> exact (pattern rule) = true ->
      test (pattern rule) boneName = true ->
      boneName ∈ bone_name <$> bones ->
      map_get (autoMapBones bones) boneName = Some (target rule))
  /\ (forall boneName : string,
         classify boneName
         = target <$> List.find (fun rule => test (pattern rule) boneName) BONE_PATTERNS)
  /\ (forall bones : list Bone,
         "Spine1" ∈ bone_name <$> bones ->
         map_get (autoMapBones bones) "Spine1" = Some "Spine1").
Proof.
  split; [|split].
  - intros rule boneName bones Hr He Ht Hb.
    rewrite autoMapBones_get, bool_decide_eq_true_2 by done.
    rewrite <- classify_canon.
    apply exact_rule_classifies; [done|]. by apply test_exact_words.
  - apply classify_find.
  - intros bones Hb.
    rewrite autoMapBones_get, bool_decide_eq_true_2 by done.
    vm_compute. reflexivity.
Qed.

(** The priority invariant at work on a skeleton that holds [Spine1]. *)
Lemma priority_invariant_witness :
  map_get (autoMapBones [bone 0 "Hips"; bone 1 "SPINE1"]) "SPINE1" = Some "Spine1".
Proof.
  apply (proj1 priority_invariant
           {| pattern := Bol +++ (lit "spine1" ||| lit "mixamorig:spine1") +++ Eol;
              target := "Spine1" |}).
  - unfold BONE_PATTERNS. do 3 apply list_elem_of_further. apply list_elem_of_here.
  - reflexivity.
  - reflexivity.
  - apply list_elem_of_further, list_elem_of_here.
Defined.

(** C1. The exclusion invariant fails on the forearm names: [autoMapBones]
    enters the upper-arm target for [LeftForeArm], [mixamorigLeftForeArm]
    and [RightForeArm], because the upper-arm pattern accepts them (its
    lookaheads inspect what follows [arm], not what precedes it).  The
    lower-leg pattern likewise accepts [LeftUpLeg]; that name is kept from
    [LeftLeg] only by the hip rule standing earlier in the table, and
    [Left_UpLeg], which the hip rule misses, is mapped to [LeftLeg]. *)
Theorem forearm_classified_as_upper_arm :
  autoMapBones [bone 0 "LeftForeArm"; bone 1 "mixamorigLeftForeArm";
                bone 2 "RightForeArm"]
  = [("LeftForeArm", "LeftArm"); ("mixamorigLeftForeArm", "LeftArm");
     ("RightForeArm", "RightArm")]
  /\ (exists rule, BONE_PATTERNS !! 11%nat = Some rule /\ target rule = "LeftArm"
                   /\ test (pattern rule) "LeftForeArm" = true)
  /\ (exists rule, BONE_PATTERNS !! 19%nat = Some rule /\ target rule = "LeftLeg"
                   /\ test (pattern rule) "LeftUpLeg" = true)
  /\ autoMapBones [bone 0 "LeftUpLeg"; bone 1 "Left_UpLeg"]
     = [("LeftUpLeg", "LeftHip"); ("Left_UpLeg", "LeftLeg")].
Proof.
  split; [by vm_compute|]. split; [|split].
  - eexists. split; [reflexivity|]. split; by vm_compute.
  - eexists. split; [reflexivity|]. split; by vm_compute.
  - by vm_compute.
Qed.

(** ** Renaming the bones of a skeleton *)

Section ApplyMapping.

Lemma findBoneByName_Some bones name i :
  findBoneByName bones name = Some i ->
  exists b, bones !! i = Some b /\ bone_name b = name
            /\ forall j b', (j < i)%nat -> bones !! j = Some b' -> bone_name b' <> name.
Proof.
  revert i. induction bones as [|b0 bones IH]; intros i; simpl; [done|].
  destruct (String.eqb_spec (bone_name b0) name) as [E|E].
  - intros [= <-]. exists b0. repeat split; [done|]. intros; lia.
  - destruct (findBoneByName bones name) as [i'|]; [|done].
    intros [= <-]. destruct (IH i' eq_refl) as (b & Hb & Hn & Hlt).
    exists b. repeat split; [done..|].
    intros [|j] b' Hj Hb'; simpl in Hb'; [by simplify_eq|].
    eapply Hlt; [|done]. lia.
Qed.

Lemma findBoneByName_None bones name :
  findBoneByName bones name = None <-> forall b, b ∈ bones -> bone_name b <> name.
Proof.
  induction bones as [|b0 bones IH]; simpl.
  - split; [|done]. by intros _ b ?%elem_of_nil.
  - destruct (String.eqb_spec (bone_name b0) name) as [E|E].
    + split; [done|]. intros H. by destruct (H b0 (list_elem_of_here _ _)).
    + destruct (findBoneByName bones name) as [i'|]; simpl.
      * split; [done|]. intros H. exfalso.
        assert (Some i' = None) as Hc; [|done].
        apply IH. intros b Hb. apply H. by apply list_elem_of_further.
      * split; [|done]. intros _ b [->|Hb]%elem_of_cons; [done|].
        by apply IH.
Qed.

Lemma findBoneByName_first bones name i b :
  bones !! i = Some b -> bone_name b = name ->
  (forall j b', (j < i)%nat -> bones !! j = Some b' -> bone_name b' <> name) ->
  findBoneByName bones name = Some i.
Proof.
  intros Hb Hn Hlt.
  destruct (findBoneByName bones name) as [i'|] eqn:E.
  - destruct (findBoneByName_Some _ _ _ E) as (b' & Hb' & Hn' & Hlt').
    destruct (Nat.lt_trichotomy i i') as [H|[->|H]]; [|done|].
    + by destruct (Hlt' _ _ H Hb).
    + by destruct (Hlt _ _ H Hb').
  - rewrite findBoneByName_None in E. destruct (E b); [|done].
    by eapply list_elem_of_lookup_2.
Qed.

Lemma set_bone_name_same b : set_bone_name (bone_name b) b = b.
Proof. by destruct b. Qed.

Lemma rename_bone_length bones k t : length (rename_bone bones k t) = length bones.
Proof.
  unfold rename_bone. destruct (findBoneByName bones k); [|done].
  apply length_alter.
Qed.

Lemma rename_bone_ids bones k t :
  bone_id <$> rename_bone bones k t = bone_id <$> bones.
Proof.
  unfold rename_bone. destruct (findBoneByName bones k) as [i|]; [|done].
  apply list_eq. intros j. rewrite !list_lookup_fmap.
  destruct (decide (i = j)) as [->|Hne].
  - rewrite list_lookup_alter_eq. by destruct (bones !! j).
  - by rewrite list_lookup_alter_ne.
Qed.

(** Renaming to the same name changes nothing. *)
Lemma rename_bone_same bones k : rename_bone bones k k = bones.
Proof.
  unfold rename_bone. destruct (findBoneByName bones k) as [i|] eqn:E; [|done].
  destruct (findBoneByName_Some _ _ _ E) as (b & Hb & Hn & _).
  apply list_eq. intros j. destruct (decide (i = j)) as [->|Hne].
  - rewrite list_lookup_alter_eq, Hb. simpl. by rewrite <- Hn, set_bone_name_same.
  - by rewrite list_lookup_alter_ne.
Qed.

(** A bone of another name is not touched. *)
Lemma rename_bone_other bones k t i b :
  bones !! i = Some b -> bone_name b <> k -> rename_bone bones k t !! i = Some b.
Proof.
  intros Hb Hn. unfold rename_bone.
  destruct (findBoneByName bones k) as [j|] eqn:E; [|done].
  destruct (findBoneByName_Some _ _ _ E) as (b' & Hb' & Hn' & _).
  rewrite list_lookup_alter_ne; [done|]. intros ->. congruence.
Qed.

Lemma applyMapping_snoc bones mapping k t :
  applyMapping bones (mapping ++ [(k, t)])
  = rename_bone (applyMapping bones mapping) k t.
Proof. unfold applyMapping. by rewrite fold_left_app. Qed.

Lemma applyMapping_length bones mapping :
  length (applyMapping bones mapping) = length bones.
Proof.
  revert bones. induction mapping as [|[k t] m IH]; intros bones; [done|].
  simpl. by rewrite IH, rename_bone_length.
Qed.

Lemma applyMapping_ids bones mapping :
  bone_id <$> applyMapping bones mapping = bone_id <$> bones.
Proof.
  revert bones. induction mapping as [|[k t] m IH]; intros bones; [done|].
  simpl. by rewrite IH, rename_bone_ids.
Qed.

Lemma map_has_cons k t m k' :
  map_has ((k, t) :: m) k' = String.eqb k k' || map_has m k'.
Proof. unfold map_has. simpl. by destruct (String.eqb k k'). Qed.

(** Bones whose name is no key keep their name. *)
Lemma applyMapping_frame bones mapping i b :
  bones !! i = Some b -> map_has mapping (bone_name b) = false ->
  applyMapping bones mapping !! i = Some b.
Proof.
  revert bones. induction mapping as [|[k t] m IH]; intros bones Hb Hm; [done|].
  rewrite map_has_cons in Hm. apply orb_false_iff in Hm as [Hk Hm].
  simpl. apply IH; [|done]. apply rename_bone_other; [done|].
  intros <-. by rewrite String.eqb_refl in Hk.
Qed.

End ApplyMapping.

Section Idempotence.

Lemma map_get_app m1 m2 k :
  map_get (m1 ++ m2) k
  = match map_get m1 k with Some v => Some v | None => map_get m2 k end.
Proof.
  induction m1 as [|[k0 v0] m1 IH]; simpl; [done|].
  by destruct (String.eqb k0 k).
Qed.

Lemma map_get_elem m k t : map_get m k = Some t -> (k, t) ∈ m.
Proof.
  induction m as [|[k0 v0] m IH]; simpl; [done|].
  destruct (String.eqb_spec k0 k) as [->|].
  - intros [= ->]. apply list_elem_of_here.
  - intros H. apply list_elem_of_further. by apply IH.
Qed.

Lemma map_get_None m k : map_get m k = None <-> k ∉ m.*1.
Proof.
  induction m as [|[k0 v0] m IH]; simpl.
  - split; [|done]. intros _ ?%elem_of_nil. done.
  - rewrite not_elem_of_cons. destruct (String.eqb_spec k0 k) as [->|].
    + split; [done|]. by intros [? _].
    + rewrite IH. split; [by split|by intros [_ ?]].
Qed.

Lemma map_get_NoDup m k t : NoDup m.*1 -> (k, t) ∈ m -> map_get m k = Some t.
Proof.
  induction m as [|[k0 v0] m IH]; simpl.
  - by intros _ ?%elem_of_nil.
  - intros [Hk Hm]%NoDup_cons [[= -> ->]|Hin]%elem_of_cons.
    + by rewrite String.eqb_refl.
    + destruct (String.eqb_spec k0 k) as [->|]; [|by apply IH].
      destruct Hk. apply list_elem_of_fmap. by exists (k, t).
Qed.

Lemma no_chained_rename_spec m k t t' :
  no_chained_rename m = true -> (k, t) ∈ m -> map_get m t = Some t' -> t' = t.
Proof.
  unfold no_chained_rename. rewrite forallb_forall.
  intros H Hin Ht. apply list_elem_of_In in Hin. specialize (H _ Hin).
  simpl in H. rewrite Ht in H. by apply bool_decide_eq_true_1 in H.
Qed.

Lemma no_chained_rename_intro m :
  (forall k t t', (k, t) ∈ m -> map_get m t = Some t' -> t' = t) ->
  no_chained_rename m = true.
Proof.
  intros H. unfold no_chained_rename. apply forallb_forall.
  intros [k t] Hin%list_elem_of_In. simpl.
  destruct (map_get m t) as [t'|] eqn:E; [|done].
  apply bool_decide_eq_true_2. by eapply H.
Qed.

Lemma canonical_name_nil b : canonical_name [] b = b.
Proof. done. Qed.

Lemma canonical_name_snoc_other m k t b :
  bone_name b <> k -> canonical_name (m ++ [(k, t)]) b = canonical_name m b.
Proof.
  intros Hn. unfold canonical_name. rewrite map_get_app. simpl.
  destruct (map_get m (bone_name b)); [done|].
  by destruct (String.eqb_spec k (bone_name b)).
Qed.

(** With distinct bone names and no chained renaming, one run of
    [applyMapping] gives every bone the name the mapping holds for it. *)
Lemma applyMapping_canonical bones mapping :
  NoDup (bone_name <$> bones) -> NoDup mapping.*1 ->
  no_chained_rename mapping = true ->
  applyMapping bones mapping = canonical_name mapping <$> bones.
Proof.
  intros Hbones. induction mapping as [|[k t] m IH] using rev_ind; intros Hkeys Hchain.
  - simpl. rewrite <- (list_fmap_id bones) at 1. done.
  - rewrite fmap_app in Hkeys. apply NoDup_app in Hkeys as (Hm & Hk & _).
    assert (k ∉ m.*1) as Hkm.
    { intros Hin. apply (Hk _ Hin). apply list_elem_of_here. }
    assert (map_get m k = None) as Hmk by by apply map_get_None.
    assert (map_get (m ++ [(k, t)]) k = Some t) as Hfull.
    { rewrite map_get_app, Hmk. simpl. by rewrite String.eqb_refl. }
    assert (no_chained_rename m = true) as Hchain'.
    { apply no_chained_rename_intro. intros k1 t1 t1' Hin Ht1.
      eapply (no_chained_rename_spec _ k1 t1 t1' Hchain).
      - apply elem_of_app. by left.
      - by rewrite map_get_app, Ht1. }
    rewrite applyMapping_snoc, IH by done. clear IH.
    destruct (decide (t = k)) as [->|Htk].
    { rewrite rename_bone_same. apply list_fmap_ext. intros i b _.
      unfold canonical_name. rewrite map_get_app. simpl.
      destruct (map_get m (bone_name b)); [done|].
      destruct (String.eqb_spec k (bone_name b)) as [->|]; [|done].
      by rewrite set_bone_name_same. }
    (* a bone that does not carry [k] is not given [k] by the entries before *)
    assert (forall b, b ∈ bones -> bone_name b <> k ->
                      bone_name (canonical_name m b) <> k) as Hother.
    { intros b Hb Hn. unfold canonical_name.
      destruct (map_get m (bone_name b)) as [v|] eqn:E; [|done].
      simpl. intros ->. destruct Htk.
      eapply (no_chained_rename_spec _ (bone_name b) k t Hchain); [|done].
      apply elem_of_app. left. by apply map_get_elem. }
    assert (forall b, bone_name b = k -> canonical_name m b = b) as Hsame.
    { intros b Hn. unfold canonical_name. by rewrite Hn, Hmk. }
    unfold rename_bone.
    destruct (findBoneByName bones k) as [i|] eqn:E.
    + destruct (findBoneByName_Some _ _ _ E) as (b & Hb & Hn & _).
      assert (forall j b', bones !! j = Some b' -> j <> i -> bone_name b' <> k) as Huniq.
      { intros j b' Hj Hji Hn'. destruct Hji.
        eapply (NoDup_lookup _ j i k Hbones); rewrite list_lookup_fmap.
        - by rewrite Hj; simpl; rewrite Hn'.
        - by rewrite Hb; simpl; rewrite Hn. }
      rewrite (findBoneByName_first _ k i b).
      * apply list_eq. intros j. destruct (decide (i = j)) as [<-|Hne].
        -- rewrite list_lookup_alter_eq, !list_lookup_fmap, Hb. simpl.
           rewrite (Hsame _ Hn). unfold canonical_name. by rewrite Hn, Hfull.
        -- rewrite list_lookup_alter_ne, !list_lookup_fmap by done.
           destruct (bones !! j) as [b'|] eqn:Hj; [|done]. simpl.
           rewrite canonical_name_snoc_other; [done|]. by eapply Huniq.
      * by rewrite list_lookup_fmap, Hb; simpl; rewrite (Hsame _ Hn).
      * done.
      * intros j b' Hlt. rewrite list_lookup_fmap.
        destruct (bones !! j) as [b0|] eqn:Hj; [|done]. intros [= <-].
        apply Hother; [by eapply list_elem_of_lookup_2|].
        eapply Huniq; [done|lia].
    + rewrite findBoneByName_None in E.
      assert (findBoneByName (canonical_name m <$> bones) k = None) as ->.
      { apply findBoneByName_None. intros b' (b & -> & Hb)%list_elem_of_fmap.
        apply Hother; [done|]. by apply E. }
      apply list_fmap_ext. intros j b Hj.
      rewrite canonical_name_snoc_other; [done|].
      apply E. by eapply list_elem_of_lookup_2.
Qed.

(** When no bone carries a key that is mapped to another name, a run of
    [applyMapping] changes nothing. *)
Lemma applyMapping_nothing_left bones mapping :
  (forall k t b, (k, t) ∈ mapping -> k <> t -> b ∈ bones -> bone_name b <> k) ->
  applyMapping bones mapping = bones.
Proof.
  induction mapping as [|[k t] m IH]; intros H; [done|].
  simpl. assert (rename_bone bones k t = bones) as ->.
  { destruct (decide (k = t)) as [->|Hkt]; [apply rename_bone_same|].
    unfold rename_bone.
    assert (findBoneByName bones k = None) as ->; [|done].
    apply findBoneByName_None. intros b Hb.
    eapply H; [apply list_elem_of_here|done..]. }
  apply IH. intros k' t' b Hin. apply H. by apply list_elem_of_further.
Qed.

Lemma map_set_keys m k v :
  (map_set m k v).*1 = if bool_decide (k ∈ m.*1) then m.*1 else m.*1 ++ [k].
Proof.
  induction m as [|[k0 v0] m IH]; [done|]. cbn [map_set].
  destruct (String.eqb_spec k0 k) as [->|Hne]; rewrite !fmap_cons; cbn [fst].
  - by rewrite bool_decide_eq_true_2 by apply list_elem_of_here.
  - rewrite IH. case_bool_decide as H1; case_bool_decide as H2; try done.
    + destruct H2. by apply list_elem_of_further.
    + apply elem_of_cons in H2 as [?|?]; congruence.
Qed.

Lemma map_set_NoDup m k v : NoDup m.*1 -> NoDup (map_set m k v).*1.
Proof.
  intros H. rewrite map_set_keys. case_bool_decide as Hk; [done|].
  apply NoDup_app. split; [done|]. split; [|apply NoDup_singleton].
  intros x Hx ->%list_elem_of_singleton. done.
Qed.

Lemma autoMapBones_acc_NoDup bones acc :
  NoDup acc.*1 ->
  NoDup (fold_left (fun mapping b => map_bone BONE_PATTERNS (bone_name b) mapping)
                   bones acc).*1.
Proof.
  revert acc. induction bones as [|b bones IH]; intros acc Hacc; [done|].
  cbn [fold_left]. apply IH. rewrite map_bone_find.
  destruct (List.find _ _); [|done]. by apply map_set_NoDup.
Qed.

(** The keys of the mapping built by [autoMapBones] are distinct. *)
Lemma autoMapBones_NoDup bones : NoDup (autoMapBones bones).*1.
Proof. apply autoMapBones_acc_NoDup. constructor. Qed.

End Idempotence.

(** C2 (as amended). On a skeleton whose bone names are pairwise distinct
    and whose mapping, built by [autoMapBones], renames no bone to a name
    that is itself a key renamed to something else, one run of
    [applyMapping] gives every classified bone its canonical name and a
    second run changes nothing. *)
Theorem applyMapping_idempotent (bones : list Bone) :
  NoDup (bone_name <$> bones) ->
  no_chained_rename (autoMapBones bones) = true ->
  applyMapping bones (autoMapBones bones)
  = canonical_name (autoMapBones bones) <$> bones
  /\ applyMapping (applyMapping bones (autoMapBones bones)) (autoMapBones bones)
     = applyMapping bones (autoMapBones bones).
Proof.
  intros Hbones Hchain. pose proof (autoMapBones_NoDup bones) as Hkeys.
  set (mapping := autoMapBones bones) in *.
  rewrite applyMapping_canonical by done. split; [done|].
  apply applyMapping_nothing_left.
  intros k t b' Hin Hkt (b & -> & Hb)%list_elem_of_fmap.
  unfold canonical_name.
  destruct (map_get mapping (bone_name b)) as [v|] eqn:E; simpl.
  - intros ->. destruct Hkt. symmetry.
    eapply (no_chained_rename_spec _ (bone_name b) k t Hchain).
    + by apply map_get_elem.
    + by apply map_get_NoDup.
  - intros Hn. rewrite Hn in E. by rewrite (map_get_NoDup _ _ _ Hkeys Hin) in E.
Qed.

(** Idempotence on a skeleton in which [Hips] is both the name of a bone
    and the target of another. *)
Lemma applyMapping_idempotent_witness :
  let bones := [bone 0 "mixamorigHips"; bone 1 "mixamorigSpine"; bone 2 "Hips";
                bone 3 "Sword"] in
  applyMapping bones (autoMapBones bones)
  = [bone 0 "Hips"; bone 1 "Spine"; bone 2 "Hips"; bone 3 "Sword"]
  /\ applyMapping (applyMapping bones (autoMapBones bones)) (autoMapBones bones)
     = applyMapping bones (autoMapBones bones).
Proof.
  intros bones.
  destruct (applyMapping_idempotent bones) as [H1 H2].
  - apply (bool_decide_unpack _). by vm_compute.
  - by vm_compute.
  - split; [|exact H2]. by vm_compute.
Defined.

(** C2 as stated fails.  With two bones of one name the first run renames
    the first of them and the second run the other; and with distinct names,
    [l_forearm] is given the name [LeftForeArm], a key of the mapping
    itself, so that each run moves one more bone on to [LeftArm]. *)
Lemma applyMapping_not_idempotent :
  (let bones := [bone 0 "hips"; bone 1 "hips"] in
   let once := applyMapping bones (autoMapBones bones) in
   let twice := applyMapping once (autoMapBones bones) in
   once = [bone 0 "Hips"; bone 1 "hips"]
   /\ twice = [bone 0 "Hips"; bone 1 "Hips"] /\ twice <> once)
  /\ (let bones := [bone 0 "l_forearm"; bone 1 "LeftForeArm"] in
      let once := applyMapping bones (autoMapBones bones) in
      let twice := applyMapping once (autoMapBones bones) in
      once = [bone 0 "LeftArm"; bone 1 "LeftForeArm"]
      /\ twice = [bone 0 "LeftArm"; bone 1 "LeftArm"] /\ twice <> once).
Proof. repeat split; by vm_compute. Qed.

(** ** Track names *)

Section Tracks.

Lemma indexOf_prefix pre c rest :
  indexOf pre c = None -> indexOf (pre +:+ String c rest) c = Some (String.length pre).
Proof.
  induction pre as [|a pre IH]; simpl.
  - intros _. change ("" +:+ String c rest) with (String c rest). simpl.
    by rewrite Ascii.eqb_refl.
  - rewrite ?string_app_cons. simpl. destruct (Ascii.eqb a c); [done|].
    destruct (indexOf pre c); [done|]. intros _. by rewrite IH.
Qed.

Lemma indexOf_app_None pre c rest :
  indexOf (pre +:+ rest) c = None -> indexOf pre c = None.
Proof.
  induction pre as [|a pre IH]; [done|].
  rewrite ?string_app_cons. simpl. destruct (Ascii.eqb a c); [done|].
  destruct (indexOf (pre +:+ rest) c); [done|]. intros _. by rewrite IH.
Qed.

Lemma substring_to_app pre rest : substring_to (pre +:+ rest) (String.length pre) = pre.
Proof.
  induction pre as [|a pre IH]; simpl.
  - by destruct ("" +:+ rest).
  - rewrite ?string_app_cons. simpl. by rewrite IH.
Qed.

Lemma substring_from_app pre rest :
  substring_from (pre +:+ rest) (String.length pre) = rest.
Proof.
  induction pre as [|a pre IH]; simpl.
  - change ("" +:+ rest) with rest. by destruct rest.
  - by rewrite ?string_app_cons.
Qed.

(** A name with a separator splits at the first one. *)
Lemma indexOf_split s c d :
  indexOf s c = Some d ->
  exists pre rest, s = pre +:+ String c rest /\ indexOf pre c = None
                   /\ d = String.length pre.
Proof.
  revert d. induction s as [|a s IH]; intros d; simpl; [done|].
  destruct (Ascii.eqb_spec a c) as [->|Hne].
  - intros [= <-]. by exists "", s.
  - destruct (indexOf s c) as [d'|]; [|done]. intros [= <-].
    destruct (IH d' eq_refl) as (pre & rest & -> & Hp & ->).
    exists (String a pre), rest. repeat split; simpl.
    destruct (Ascii.eqb_spec a c); [done|]. by rewrite Hp.
Qed.

Lemma rename_track_mapped mapping track boneName property canonical :
  track_name track = boneName +:+ "." +:+ property ->
  indexOf boneName "." = None ->
  map_get mapping boneName = Some canonical ->
  rename_track mapping track
  = {| track_curve := track_curve track;
       track_name := canonical +:+ "." +:+ property |}.
Proof.
  intros Hn Hd Hm. unfold rename_track. rewrite Hn.
  change ("." +:+ property) with (String "." property).
  by rewrite indexOf_prefix, substring_to_app, substring_from_app, Hm.
Qed.

Lemma rename_track_no_separator mapping track :
  indexOf (track_name track) "." = None -> rename_track mapping track = track.
Proof. intros H. unfold rename_track. by rewrite H. Qed.

Lemma rename_track_unmapped mapping track boneName property :
  track_name track = boneName +:+ "." +:+ property ->
  indexOf boneName "." = None ->
  map_has mapping boneName = false ->
  rename_track mapping track = track.
Proof.
  intros Hn Hd Hm. unfold rename_track. rewrite Hn.
  change ("." +:+ property) with (String "." property).
  rewrite indexOf_prefix, substring_to_app by done.
  unfold map_has in Hm. by destruct (map_get mapping boneName).
Qed.

End Tracks.

(** C4. A track whose name is a bone name, the separator and a channel,
    with the bone name (the part before the first [.]) a key of the mapping,
    is renamed by [applyMappingToAnimations] to the canonical name followed
    by the separator and the channel unchanged; the track stays in its place
    and keeps its curve.  So [mixamorigHips.position] under
    [mixamorigHips -> Hips] becomes [Hips.position]. *)
Theorem track_rewrite_keeps_suffix
    (animations : list AnimationClip) (mapping : Map) (ci ti : nat)
    (clip : AnimationClip) (track : KeyframeTrack)
    (boneName property canonical : string) :
  animations !! ci = Some clip ->
  tracks clip !! ti = Some track ->
  track_name track = boneName +:+ "." +:+ property ->
  indexOf boneName "." = None ->
  map_get mapping boneName = Some canonical ->
  exists clip',
    applyMappingToAnimations animations mapping !! ci = Some clip'
    /\ clip_name clip' = clip_name clip
    /\ tracks clip' !! ti
       = Some {| track_curve := track_curve track;
                 track_name := canonical +:+ "." +:+ property |}.
Proof.
  intros Hc Ht Hn Hd Hm. unfold applyMappingToAnimations.
  rewrite list_lookup_fmap, Hc. simpl. eexists. split; [done|]. simpl.
  split; [done|]. rewrite list_lookup_fmap, Ht. simpl.
  by erewrite rename_track_mapped.
Qed.

(** The example of the design document. *)
Lemma track_rewrite_keeps_suffix_witness :
  exists clip',
    applyMappingToAnimations
      [ {| clip_name := "Walk";
           tracks := [ {| track_curve := 0; track_name := "mixamorigHips.position" |};
                       {| track_curve := 1; track_name := "mixamorigHips.quaternion" |} ] |} ]
      [("mixamorigHips", "Hips")] !! 0%nat = Some clip'
    /\ clip_name clip' = "Walk"
    /\ tracks clip' !! 0%nat
       = Some {| track_curve := 0; track_name := "Hips.position" |}.
Proof.
  exact (track_rewrite_keeps_suffix
           [ {| clip_name := "Walk";
                tracks := [ {| track_curve := 0; track_name := "mixamorigHips.position" |};
                            {| track_curve := 1;
                               track_name := "mixamorigHips.quaternion" |} ] |} ]
           [("mixamorigHips", "Hips")] 0 0
           {| clip_name := "Walk";
              tracks := [ {| track_curve := 0; track_name := "mixamorigHips.position" |};
                          {| track_curve := 1;
                             track_name := "mixamorigHips.quaternion" |} ] |}
           {| track_curve := 0; track_name := "mixamorigHips.position" |}
           "mixamorigHips" "position" "Hips"
           eq_refl eq_refl eq_refl eq_refl eq_refl).
Defined.

Lemma rename_track_curve mapping track :
  track_curve (rename_track mapping track) = track_curve track.
Proof.
  unfold rename_track. destruct (indexOf _ _); [|done].
  by destruct (map_get _ _).
Qed.

(** C5. Frame property.  [applyMapping] keeps the bones in number and in
    order and leaves every bone whose name is no key of the mapping as it
    was; [applyMappingToAnimations] keeps the clips and their tracks in
    number and in order, and leaves as it was every track whose name has no
    separator (it is skipped, with no failure) or whose part before the
    first separator is no key of the mapping. *)
Theorem mapping_frame
    (bones : list Bone) (animations : list AnimationClip) (mapping : Map) :
  (length (applyMapping bones mapping) = length bones
   /\ bone_id <$> applyMapping bones mapping = bone_id <$> bones
   /\ forall i b,
        bones !! i = Some b -> map_has mapping (bone_name b) = false ->
        applyMapping bones mapping !! i = Some b)
  /\ (length (applyMappingToAnimations animations mapping) = length animations
      /\ forall ci clip,
           animations !! ci = Some clip ->
           exists clip',
             applyMappingToAnimations animations mapping !! ci = Some clip'
             /\ clip_name clip' = clip_name clip
             /\ track_curve <$> tracks clip' = track_curve <$> tracks clip
             /\ forall ti track,
                  tracks clip !! ti = Some track ->
                  (indexOf (track_name track) "." = None
                   \/ exists boneName property,
                        track_name track = boneName +:+ "." +:+ property
                        /\ indexOf boneName "." = None
                        /\ map_has mapping boneName = false) ->
                  tracks clip' !! ti = Some track).
Proof.
  split; [split; [|split]|split].
  - apply applyMapping_length.
  - apply applyMapping_ids.
  - intros i b. apply applyMapping_frame.
  - unfold applyMappingToAnimations. apply length_fmap.
  - intros ci clip Hc. unfold applyMappingToAnimations.
    rewrite list_lookup_fmap, Hc. simpl. eexists. split; [done|]. simpl.
    split; [done|]. split.
    + rewrite <- list_fmap_compose. apply list_fmap_ext.
      intros ? track _. apply rename_track_curve.
    + intros ti track Ht Hcase. rewrite list_lookup_fmap, Ht. simpl. f_equal.
      destruct Hcase as [Hnone|(boneName & property & Hn & Hd & Hm)].
      * by apply rename_track_no_separator.
      * by eapply rename_track_unmapped.
Qed.

(** The frame property on a skeleton with a prop bone and a clip with a
    prop track and a track without separator. *)
Lemma mapping_frame_witness :
  applyMapping [bone 0 "mixamorigHips"; bone 1 "Sword"] [("mixamorigHips", "Hips")]
  !! 1%nat = Some (bone 1 "Sword")
  /\ rename_track [("mixamorigHips", "Hips")]
     <$> [ {| track_curve := 0; track_name := "Sword.position" |};
           {| track_curve := 1; track_name := "mixamorigHips" |} ]
     = [ {| track_curve := 0; track_name := "Sword.position" |};
         {| track_curve := 1; track_name := "mixamorigHips" |} ].
Proof.
  split.
  - exact (proj2 (proj2 (proj1 (mapping_frame
             [bone 0 "mixamorigHips"; bone 1 "Sword"] [] [("mixamorigHips", "Hips")])))
             1%nat (bone 1 "Sword") eq_refl eq_refl).
  - reflexivity.
Defined.

(** ** Required bones *)

Section RequiredBones.

Lemma array_includes_spec xs x : array_includes xs x = true <-> x ∈ xs.
Proof.
  unfold array_includes. rewrite existsb_exists. split.
  - intros (y & Hy & ->%String.eqb_eq). by apply list_elem_of_In.
  - intros H. exists x. split; [by apply list_elem_of_In|apply String.eqb_refl].
Qed.

Lemma filter_nil_iff {A} (f : A -> bool) (l : list A) :
  List.filter f l = [] <-> forall a, a ∈ l -> f a = false.
Proof.
  induction l as [|a l IH]; simpl.
  - split; [|done]. by intros _ a ?%elem_of_nil.
  - destruct (f a) eqn:E.
    + split; [done|]. intros H. specialize (H a (list_elem_of_here _ _)). congruence.
    + rewrite IH. split.
      * intros H b [->|Hb]%elem_of_cons; [done|by apply H].
      * intros H b Hb. apply H. by apply list_elem_of_further.
Qed.

Lemma missingBones_filter bones :
  missingBones (validateBones bones)
  = List.filter (fun name => bool_decide (name ∉ bone_name <$> bones)) requiredBones.
Proof.
  unfold validateBones. cbn [missingBones]. apply filter_ext_in.
  intros name Hname%list_elem_of_In.
  destruct (array_includes _ name) eqn:E; simpl; symmetry.
  - apply bool_decide_eq_false_2. intros Hn. apply Hn.
    apply array_includes_spec, list_elem_of_In, filter_In in E as [E _].
    by apply list_elem_of_In.
  - apply bool_decide_eq_true_2. intros Hin.
    assert (array_includes
              (List.filter (fun name => array_includes requiredBones name)
                           (bone_name <$> bones)) name = true) as E'; [|congruence].
    apply array_includes_spec, list_elem_of_In, filter_In.
    split; [by apply list_elem_of_In|]. by apply array_includes_spec.
Qed.

End RequiredBones.

(** C6. [validateBones] answers [isValid = true] exactly when each of the
    seven required names is the name of some bone of the skeleton, and
    [missingBones] is the list of the required names that no bone carries,
    in the order of the required list. *)
Theorem validateBones_required (bones : list Bone) :
  (isValid (validateBones bones) = true
   <-> forall name,
         name ∈ ["Hips"; "Spine"; "Head"; "LeftArm"; "RightArm"; "LeftLeg"; "RightLeg"] ->
         name ∈ bone_name <$> bones)
  /\ missingBones (validateBones bones)
     = List.filter (fun name => bool_decide (name ∉ bone_name <$> bones))
                   ["Hips"; "Spine"; "Head"; "LeftArm"; "RightArm"; "LeftLeg"; "RightLeg"].
Proof.
  split; [|apply missingBones_filter].
  change (isValid (validateBones bones))
    with (length (missingBones (validateBones bones)) =? 0)%nat.
  rewrite missingBones_filter, Nat.eqb_eq, length_zero_iff_nil, filter_nil_iff.
  split.
  - intros H name Hname. specialize (H name Hname).
    apply bool_decide_eq_false_1 in H. by apply dec_stable.
  - intros H name Hname. apply bool_decide_eq_false_2. intros Hn. by apply Hn, H.
Qed.

(** ** The validator *)

Section Validator.
Import FBXValidator.

(** Induction on a scene graph, with the hypothesis for every child. *)
Lemma Object3D_ind (P : Object3D -> Prop) :
  (forall m cs, Forall P cs -> P (Object m cs)) -> forall o, P o.
Proof.
  intros H. fix IH 1. intros [m cs]. apply H.
  induction cs as [|c cs IHcs]; constructor; [apply IH|apply IHcs].
Qed.

Lemma traverse_preorder {S} (callback : Object3D -> S -> S) o s :
  traverse callback o s = fold_left (fun s' n => callback n s') (preorder o) s.
Proof.
  revert s. induction o as [m cs IH] using Object3D_ind. intros s.
  cbn [traverse preorder fold_left]. generalize (callback (Object m cs) s).
  induction IH as [|c cs Hc _ IHcs]; intros s'; [done|].
  cbn [fold_left flat_map]. by rewrite fold_left_app, Hc, IHcs.
Qed.

Lemma visit_fold nodes st :
  fold_left (fun s' n => visit n s') nodes st
  = match last (omap skinned nodes) with
    | Some m => (Some m, mesh_met st.2)
    | None => st
    end.
Proof.
  revert st. induction nodes as [|n nodes IH]; intros st; [done|].
  cbn [fold_left]. rewrite IH. unfold visit.
  destruct n as [[m|] cs]; simpl.
  - rewrite last_cons. by destruct (last _).
  - done.
Qed.

Lemma find_mesh fbx :
  traverse visit (scene fbx) (None, initial_info)
  = match selected_mesh fbx with
    | Some m => (Some m, mesh_met initial_info)
    | None => (None, initial_info)
    end.
Proof. by rewrite traverse_preorder, visit_fold. Qed.

Lemma validateFBXGroup_selected fbx mesh :
  selected_mesh fbx = Some mesh ->
  validateFBXGroup fbx = validate_mesh fbx mesh (mesh_met initial_info).
Proof. intros H. unfold validateFBXGroup. by rewrite find_mesh, H. Qed.

Lemma validateFBXGroup_no_mesh fbx :
  selected_mesh fbx = None ->
  validateFBXGroup fbx
  = {| isValid := false;
       errors := ["❌ CRITICAL: No SkinnedMesh found in FBX file";
                  "   → This file cannot be used for character rigging"];
       warnings := []; info := initial_info |}.
Proof. intros H. unfold validateFBXGroup. by rewrite find_mesh, H. Qed.

Lemma omap_skinned_none nodes :
  Forall (fun o => skinned o = None) nodes -> omap skinned nodes = [].
Proof. induction 1 as [|o nodes Ho _ IH]; [done|]. simpl. by rewrite Ho. Qed.

Lemma selected_mesh_last fbx before node after mesh :
  preorder (scene fbx) = before ++ node :: after ->
  skinned node = Some mesh ->
  Forall (fun o => skinned o = None) after ->
  selected_mesh fbx = Some mesh.
Proof.
  intros Hp Hn Ha. unfold selected_mesh. rewrite Hp, omap_app.
  change (node :: after) with ([node] ++ after).
  rewrite omap_app, (omap_skinned_none _ Ha), app_nil_r.
  assert (omap skinned [node] = [mesh]) as -> by (simpl; by rewrite Hn).
  apply last_snoc.
Qed.

(** The report when the mesh has no skeleton. *)
Lemma validate_mesh_no_skeleton fbx mesh i :
  skeleton mesh = None ->
  validate_mesh fbx mesh i
  = {| isValid := false;
       errors :=
         (if degenerate (box_size mesh)
          then ["❌ CRITICAL: Mesh has zero size in one or more dimensions";
                "   → Size: " +:+ show_size (box_size mesh)]
          else [])
         ++ ["❌ CRITICAL: Mesh has no skeleton";
             "   → This is not a rigged character"];
       warnings :=
         (if number_lt (vec_y (box_size mesh)) tenth
          then ["⚠️  Mesh is very small (height < 0.1 units)";
                "   → Current size: " +:+ show_size (box_size mesh);
                "   → Will be scaled up automatically"]
          else []);
       info := set_measure i (box_size mesh) (box_min mesh) (box_max mesh) |}.
Proof. intros H. unfold validate_mesh, validate_mesh_in. rewrite H. reflexivity. Qed.

(** The report when the skeleton has no bones. *)
Lemma validate_mesh_no_bones fbx mesh i skel :
  skeleton mesh = Some skel -> length (bones skel) = 0%nat ->
  isValid (validate_mesh fbx mesh i) = false
  /\ errors (validate_mesh fbx mesh i)
     = (if degenerate (box_size mesh)
        then ["❌ CRITICAL: Mesh has zero size in one or more dimensions";
              "   → Size: " +:+ show_size (box_size mesh)]
        else [])
       ++ ["❌ CRITICAL: Skeleton has no bones"].
Proof. intros H H0. unfold validate_mesh, validate_mesh_in. rewrite H, H0. by split. Qed.

(** Errors, verdict and measures when the skeleton has bones. *)
Lemma validate_mesh_with_bones fbx mesh i skel :
  skeleton mesh = Some skel -> length (bones skel) <> 0%nat ->
  errors (validate_mesh fbx mesh i)
  = (if degenerate (box_size mesh)
     then ["❌ CRITICAL: Mesh has zero size in one or more dimensions";
           "   → Size: " +:+ show_size (box_size mesh)]
     else [])
    ++ (if (length (bones skel) <? MIN_BONE_COUNT)%nat
        then ["❌ CRITICAL: Too few bones (" +:+ pretty (length (bones skel))
                +:+ " < " +:+ pretty MIN_BONE_COUNT +:+ ")";
              "   → This model appears to be incomplete or corrupted";
              "   → Expected at least " +:+ pretty MIN_BONE_COUNT
                +:+ " bones for a full character"]
        else [])
  /\ isValid (validate_mesh fbx mesh i)
     = (length (errors (validate_mesh fbx mesh i)) =? 0)%nat
  /\ boneCount (info (validate_mesh fbx mesh i)) = length (bones skel)
  /\ meshSize (info (validate_mesh fbx mesh i)) = Some (box_size mesh)
  /\ meshBounds (info (validate_mesh fbx mesh i)) = Some (box_min mesh, box_max mesh).
Proof.
  intros H H0. unfold validate_mesh, validate_mesh_in. rewrite H.
  destruct (length (bones skel) =? 0)%nat eqn:E; [by apply Nat.eqb_eq in E|].
  destruct (material mesh) as [[m|ms]|];
    (repeat split; try reflexivity;
     destruct (degenerate (box_size mesh)) eqn:Ed; unfold degenerate in Ed;
     rewrite Ed;
     by destruct (length (bones skel) <? MIN_BONE_COUNT)%nat).
Qed.

(** The validator in full on the mesh it selects. *)
Lemma validateFBXGroup_in_selected measures exponent fbx mesh :
  selected_mesh fbx = Some mesh ->
  validateFBXGroup_in measures exponent fbx
  = if measures mesh
    then Some (validate_mesh_in (toFixed2_in exponent) fbx mesh
                 (mesh_met initial_info))
    else None.
Proof. intros H. unfold validateFBXGroup_in. by rewrite find_mesh, H. Qed.

(** Below 10^21 the size is shown by the digits of [toFixed2]. *)
Lemma show_size_printable exponent size :
  printable size = true ->
  show_size_in (toFixed2_in exponent) size = show_size size.
Proof.
  unfold printable. intros H.
  apply andb_prop in H as [H Hz]. apply andb_prop in H as [Hx Hy].
  unfold show_size_in, show_size, toFixed2_in. by rewrite Hx, Hy, Hz.
Qed.

(** The report depends on [toFixed] through the shown size only. *)
Lemma validate_mesh_in_shown fixed fixed' fbx mesh i :
  show_size_in fixed (box_size mesh) = show_size_in fixed' (box_size mesh) ->
  validate_mesh_in fixed fbx mesh i = validate_mesh_in fixed' fbx mesh i.
Proof. intros H. unfold validate_mesh_in. cbv zeta. by rewrite H. Qed.

(** On an asset whose mesh three.js measures and whose size is below 10^21,
    and on one without mesh, the validator in full gives the report of
    [validateFBXGroup]. *)
Lemma validateFBXGroup_in_spec measures exponent fbx :
  match selected_mesh fbx with
  | Some mesh => measures mesh = true /\ printable (box_size mesh) = true
  | None => True
  end ->
  validateFBXGroup_in measures exponent fbx = Some (validateFBXGroup fbx).
Proof.
  destruct (selected_mesh fbx) as [mesh|] eqn:Hsel.
  - intros [Hm Hp]. rewrite (validateFBXGroup_in_selected _ _ _ _ Hsel), Hm.
    rewrite (validateFBXGroup_selected _ _ Hsel). unfold validate_mesh. f_equal.
    apply validate_mesh_in_shown. by rewrite show_size_printable.
  - intros _. unfold validateFBXGroup_in, validateFBXGroup.
    by rewrite find_mesh, Hsel.
Qed.

End Validator.




(** C8 (as amended). When the skinned mesh the validator looks at, the
    last one in traversal order, has a skeleton of 5 bones, the report has
    [isValid = false] and holds the critical error that names the count and
    the threshold of 20 bones. *)
Theorem too_few_bones_report (fbx : Group) (mesh : SkinnedMesh) (skel : Skeleton) :
  selected_mesh fbx = Some mesh ->
  skeleton mesh = Some skel ->
  length (bones skel) = 5%nat ->
  FBXValidator.isValid (FBXValidator.validateFBXGroup fbx) = false
  /\ "❌ CRITICAL: Too few bones (5 < 20)"
     ∈ FBXValidator.errors (FBXValidator.validateFBXGroup fbx)
  /\ FBXValidator.boneCount (FBXValidator.info (FBXValidator.validateFBXGroup fbx))
     = 5%nat.
Proof.
  intros Hsel Hskel Hlen. rewrite (validateFBXGroup_selected _ _ Hsel).
  destruct (validate_mesh_with_bones fbx mesh (mesh_met FBXValidator.initial_info)
              skel Hskel) as (He & Hv & Hb & _); [lia|].
  rewrite Hv, He, Hb, Hlen. split; [|split; [|done]].
  - rewrite length_app. apply Nat.eqb_neq.
    change (5 <? FBXValidator.MIN_BONE_COUNT)%nat with true. cbn [length]. lia.
  - apply elem_of_app. right. vm_compute. apply list_elem_of_here.
Qed.

(** An asset whose only mesh has a rig of 5 bones. *)
Lemma too_few_bones_report_witness :
  FBXValidator.isValid
    (FBXValidator.validateFBXGroup
       {| scene := Object None [Object (Some (unit_mesh (Some (rig 5)))) []];
          animations := None |}) = false
  /\ "❌ CRITICAL: Too few bones (5 < 20)"
     ∈ FBXValidator.errors
         (FBXValidator.validateFBXGroup
            {| scene := Object None [Object (Some (unit_mesh (Some (rig 5)))) []];
               animations := None |})
  /\ FBXValidator.boneCount
       (FBXValidator.info
          (FBXValidator.validateFBXGroup
             {| scene := Object None [Object (Some (unit_mesh (Some (rig 5)))) []];
                animations := None |})) = 5%nat.
Proof.
  exact (too_few_bones_report
           {| scene := Object None [Object (Some (unit_mesh (Some (rig 5)))) []];
              animations := None |}
           (unit_mesh (Some (rig 5))) (rig 5) eq_refl eq_refl eq_refl).
Defined.

(** C8 as stated fails: an asset with a skinned mesh of 5 bones followed
    by one of 25 bones is reported valid, with no error, on the 25 bones of
    the second. *)
Lemma five_bones_not_last :
  let fbx :=
    {| scene := Object None [Object (Some (unit_mesh (Some (rig 5)))) [];
                             Object (Some (unit_mesh (Some (rig 25)))) []];
       animations := None |} in
  first_mesh fbx = Some (unit_mesh (Some (rig 5)))
  /\ length (bones (rig 5)) = 5%nat
  /\ FBXValidator.isValid (FBXValidator.validateFBXGroup fbx) = true
  /\ FBXValidator.errors (FBXValidator.validateFBXGroup fbx) = []
  /\ FBXValidator.boneCount (FBXValidator.info (FBXValidator.validateFBXGroup fbx))
     = 25%nat.
Proof. repeat split; by vm_compute. Qed.

(** C9 (as amended). Every skinned mesh met by the traversal replaces the
    one met before, so the validator looks at the last skinned-mesh node in
    traversal order: the report of an asset is the report of the asset
    reduced to that node, and the measures of the info record are those of
    that node. *)
Theorem validator_uses_last_mesh
    (fbx : Group) (before after : list Object3D) (node : Object3D)
    (mesh : SkinnedMesh) :
  preorder (scene fbx) = before ++ node :: after ->
  skinned node = Some mesh ->
  Forall (fun o => skinned o = None) after ->
  FBXValidator.validateFBXGroup fbx
  = FBXValidator.validateFBXGroup (only_mesh fbx mesh)
  /\ FBXValidator.meshSize (FBXValidator.info (FBXValidator.validateFBXGroup fbx))
     = Some (box_size mesh)
  /\ FBXValidator.meshBounds (FBXValidator.info (FBXValidator.validateFBXGroup fbx))
     = Some (box_min mesh, box_max mesh)
  /\ FBXValidator.boneCount (FBXValidator.info (FBXValidator.validateFBXGroup fbx))
     = match skeleton mesh with Some skel => length (bones skel) | None => 0%nat end.
Proof.
  intros Hp Hn Ha.
  pose proof (selected_mesh_last _ _ _ _ _ Hp Hn Ha) as Hsel.
  rewrite (validateFBXGroup_selected _ _ Hsel).
  split; [by rewrite (validateFBXGroup_selected (only_mesh fbx mesh) mesh)|].
  destruct (skeleton mesh) as [skel|] eqn:Hskel.
  - destruct (decide (length (bones skel) = 0%nat)) as [H0|H0].
    + unfold FBXValidator.validate_mesh, FBXValidator.validate_mesh_in. rewrite Hskel, H0. by repeat split.
    + destruct (validate_mesh_with_bones fbx mesh (mesh_met FBXValidator.initial_info)
                  skel Hskel H0) as (_ & _ & Hb & Hs & Hbd).
      by rewrite Hb, Hs, Hbd.
  - rewrite (validate_mesh_no_skeleton _ _ _ Hskel). by repeat split.
Qed.

(** Two skinned meshes side by side: the report is that of the second. *)
Lemma validator_uses_last_mesh_witness :
  FBXValidator.boneCount
    (FBXValidator.info
       (FBXValidator.validateFBXGroup
          {| scene := Object None [Object (Some (unit_mesh (Some (rig 25)))) [];
                                   Object (Some (unit_mesh (Some (rig 3)))) [Object None []]];
             animations := None |})) = 3%nat.
Proof.
  exact (proj2 (proj2 (proj2 (validator_uses_last_mesh
           {| scene := Object None [Object (Some (unit_mesh (Some (rig 25)))) [];
                                    Object (Some (unit_mesh (Some (rig 3)))) [Object None []]];
              animations := None |}
           [Object None [Object (Some (unit_mesh (Some (rig 25)))) [];
                         Object (Some (unit_mesh (Some (rig 3)))) [Object None []]];
            Object (Some (unit_mesh (Some (rig 25)))) []]
           [Object None []]
           (Object (Some (unit_mesh (Some (rig 3)))) [Object None []])
           (unit_mesh (Some (rig 3)))
           eq_refl eq_refl ltac:(repeat constructor))))).
Defined.

(** C9 as stated fails: of two skinned meshes, the first with 25 bones and
    the second with 3, the report counts 3 bones and is not valid, while
    the first mesh alone is valid. *)
Lemma validator_not_first_mesh :
  let fbx :=
    {| scene := Object None [Object (Some (unit_mesh (Some (rig 25)))) [];
                             Object (Some (unit_mesh (Some (rig 3)))) []];
       animations := None |} in
  first_mesh fbx = Some (unit_mesh (Some (rig 25)))
  /\ FBXValidator.boneCount (FBXValidator.info (FBXValidator.validateFBXGroup fbx))
     = 3%nat
  /\ FBXValidator.isValid (FBXValidator.validateFBXGroup fbx) = false
  /\ FBXValidator.isValid
       (FBXValidator.validateFBXGroup (only_mesh fbx (unit_mesh (Some (rig 25)))))
     = true.
Proof. repeat split; by vm_compute. Qed.

(** C10. On every path out of [validateFBXGroup] the report has
    [isValid = true] exactly when its list of errors is empty. *)
Theorem report_consistent (fbx : Group) :
  FBXValidator.isValid (FBXValidator.validateFBXGroup fbx) = true
  <-> FBXValidator.errors (FBXValidator.validateFBXGroup fbx) = [].
Proof.
  destruct (selected_mesh fbx) as [mesh|] eqn:Hsel.
  - rewrite (validateFBXGroup_selected _ _ Hsel).
    destruct (skeleton mesh) as [skel|] eqn:Hskel.
    + destruct (decide (length (bones skel) = 0%nat)) as [H0|H0].
      * destruct (validate_mesh_no_bones fbx mesh (mesh_met FBXValidator.initial_info)
                    skel Hskel H0) as [-> ->].
        split; [done|]. by intros [_ ?]%app_eq_nil.
      * destruct (validate_mesh_with_bones fbx mesh (mesh_met FBXValidator.initial_info)
                    skel Hskel H0) as (_ & -> & _).
        by rewrite Nat.eqb_eq, length_zero_iff_nil.
    + rewrite (validate_mesh_no_skeleton _ _ _ Hskel). cbn.
      split; [done|]. by intros [_ ?]%app_eq_nil.
  - rewrite (validateFBXGroup_no_mesh _ Hsel). by cbn.
Qed.

(** * Further properties of the mapper *)

Section MappingEntries.

Lemma classify_rule boneName t :
  classify boneName = Some t ->
  exists rule, rule ∈ BONE_PATTERNS /\ test (pattern rule) boneName = true
               /\ target rule = t.
Proof.
  rewrite classify_find.
  destruct (List.find _ _) as [rule|] eqn:E; [|done].
  intros [= <-]. apply find_some in E as [Hin Ht].
  exists rule. by rewrite list_elem_of_In.
Qed.

Lemma classify_None boneName :
  classify boneName = None <->
  forall rule, rule ∈ BONE_PATTERNS -> test (pattern rule) boneName = false.
Proof.
  rewrite classify_find. split.
  - destruct (List.find _ _) as [rule|] eqn:E; [done|]. intros _ rule Hr.
    apply list_elem_of_In in Hr. by apply (find_none _ _ E).
  - intros H. destruct (List.find _ _) as [rule|] eqn:E; [|done].
    apply find_some in E as [Hin Ht]. apply list_elem_of_In in Hin.
    by rewrite (H _ Hin) in Ht.
Qed.

Lemma table_targets_standard :
  forallb (fun rule => isStandardBone (target rule)) BONE_PATTERNS = true.
Proof. by vm_compute. Qed.

Lemma autoMapBones_snoc bones b :
  autoMapBones (bones ++ [b])
  = map_bone BONE_PATTERNS (bone_name b) (autoMapBones bones).
Proof. unfold autoMapBones. by rewrite fold_left_app. Qed.

Lemma autoMapBones_keys_sublist bones :
  (autoMapBones bones).*1 `sublist_of` bone_name <$> bones.
Proof.
  induction bones as [|b bones IH] using rev_ind; [done|].
  rewrite autoMapBones_snoc, map_bone_find, fmap_app.
  destruct (List.find _ _) as [rule|].
  - rewrite map_set_keys. case_bool_decide.
    + by apply sublist_inserts_r.
    + by apply sublist_app.
  - by apply sublist_inserts_r.
Qed.

End MappingEntries.

(** X1. The mapping is partial: [autoMapBones] holds an entry under a name
    exactly when some bone carries the name and some rule of the table
    matches it; a name that no bone carries or no rule matches has none. *)
Theorem mapping_entry_iff (bones : list Bone) (boneName : string) :
  map_has (autoMapBones bones) boneName = true
  <-> boneName ∈ bone_name <$> bones
      /\ exists rule, rule ∈ BONE_PATTERNS /\ test (pattern rule) boneName = true.
Proof.
  rewrite map_has_get, autoMapBones_get. split.
  - intros [t Ht]. case_bool_decide; [|done]. split; [done|].
    destruct (classify_rule _ _ Ht) as (rule & ? & ? & _). by exists rule.
  - intros [Hin (rule & Hr & Ht)]. rewrite bool_decide_eq_true_2 by done.
    destruct (classify boneName) as [t|] eqn:E; [by exists t|].
    rewrite classify_None in E. by rewrite (E _ Hr) in Ht.
Qed.

Section KeyOrder.

Lemma filter_filter_and {A} (f g : A -> bool) (l : list A) :
  List.filter f (List.filter g l) = List.filter (fun a => g a && f a) l.
Proof.
  induction l as [|a l IH]; [done|]. cbn [List.filter].
  destruct (g a); cbn [List.filter andb]; [|done]. by rewrite IH.
Qed.

Lemma filter_true {A} (f : A -> bool) (l : list A) :
  (forall a, f a = true) -> List.filter f l = l.
Proof.
  intros H. induction l as [|a l IH]; [done|]. cbn [List.filter].
  by rewrite H, IH.
Qed.

Lemma autoMapBones_keys_acc bones acc :
  (fold_left (fun mapping b => map_bone BONE_PATTERNS (bone_name b) mapping)
             bones acc).*1
  = acc.*1
    ++ List.filter (fun name => bool_decide (name ∉ acc.*1))
         (first_occurrences (List.filter classified (bone_name <$> bones))).
Proof.
  revert acc. induction bones as [|b bones IH]; intros acc.
  - simpl. by rewrite app_nil_r.
  - cbn [fold_left]. rewrite IH, fmap_cons. cbn [List.filter].
    rewrite map_bone_find. unfold classified at 2. rewrite classify_find.
    destruct (List.find _ BONE_PATTERNS) as [rule|]; cbn [fmap option_fmap option_map];
      [|done].
    cbn [first_occurrences List.filter]. rewrite map_set_keys.
    case_bool_decide as Hin.
    + rewrite bool_decide_eq_false_2 by (intros H; by apply H).
      f_equal. rewrite filter_filter_and. apply filter_ext. intros name.
      destruct (String.eqb_spec (bone_name b) name) as [<-|Hne]; [|done].
      cbn [negb andb]. apply bool_decide_eq_false_2. intros H. by apply H.
    + rewrite bool_decide_eq_true_2 by done. rewrite <- app_assoc. cbn [app].
      do 2 f_equal. rewrite filter_filter_and. apply filter_ext. intros name.
      destruct (String.eqb_spec (bone_name b) name) as [<-|Hne]; cbn [negb andb].
      * apply bool_decide_eq_false_2. intros H. apply H.
        apply elem_of_app. right. apply list_elem_of_here.
      * apply bool_decide_ext. rewrite not_elem_of_app, not_elem_of_cons.
        split; [by intros [? _]|]. intros H. split; [done|]. split; [done|].
        apply not_elem_of_nil.
Qed.

End KeyOrder.

(** X2. The keys of the mapping are the names of the classified bones,
    each once, in the order in which the skeleton first shows them; so they
    are pairwise distinct, a sublist of the bone names, and never more than
    the skeleton has bones. *)
Theorem mapping_keys_ordered (bones : list Bone) :
  (autoMapBones bones).*1
  = first_occurrences (List.filter classified (bone_name <$> bones))
  /\ NoDup (autoMapBones bones).*1
  /\ (autoMapBones bones).*1 `sublist_of` bone_name <$> bones
  /\ (length (autoMapBones bones) <= length bones)%nat.
Proof.
  split.
  { unfold autoMapBones. rewrite autoMapBones_keys_acc. cbn [fmap list_fmap app].
    apply filter_true. intros name. apply bool_decide_eq_true_2, not_elem_of_nil. }
  split; [apply autoMapBones_NoDup|]. split; [apply autoMapBones_keys_sublist|].
  pose proof (sublist_length _ _ (autoMapBones_keys_sublist bones)) as H.
  by rewrite !length_fmap in H.
Qed.

(** X3. Every entry of the mapping leads from the name of a bone of the
    skeleton to a name of the standard vocabulary. *)
Theorem mapping_targets_standard (bones : list Bone) (boneName standardName : string) :
  map_get (autoMapBones bones) boneName = Some standardName ->
  boneName ∈ bone_name <$> bones /\ isStandardBone standardName = true.
Proof.
  rewrite autoMapBones_get. case_bool_decide; [|done]. intros Hc. split; [done|].
  destruct (classify_rule _ _ Hc) as (rule & Hr & _ & <-).
  pose proof table_targets_standard as Htable. rewrite forallb_forall in Htable.
  apply Htable. by apply list_elem_of_In.
Qed.

(** A Mixamo name and its standard name. *)
Lemma mapping_targets_standard_witness :
  "mixamorigLeftHand" ∈ bone_name <$> [bone 0 "mixamorigHips"; bone 1 "mixamorigLeftHand"]
  /\ isStandardBone "LeftHand" = true.
Proof.
  apply (mapping_targets_standard
           [bone 0 "mixamorigHips"; bone 1 "mixamorigLeftHand"]
           "mixamorigLeftHand" "LeftHand").
  by vm_compute.
Defined.

(** X4. Classification does not look at letter case: two bone names that
    agree up to case are given the same entry, or both none. *)
Theorem mapping_ignores_case (bones bones' : list Bone) (a b : string) :
  a ∈ bone_name <$> bones -> b ∈ bone_name <$> bones' ->
  canon_string a = canon_string b ->
  map_get (autoMapBones bones) a = map_get (autoMapBones bones') b.
Proof.
  intros Ha Hb E. rewrite !autoMapBones_get, !bool_decide_eq_true_2 by done.
  by rewrite <- (classify_canon a), E, classify_canon.
Qed.

(** Upper case and mixed case of one name. *)
Lemma mapping_ignores_case_witness :
  map_get (autoMapBones [bone 0 "LEFTHAND"]) "LEFTHAND"
  = map_get (autoMapBones [bone 0 "Root"; bone 1 "leftHand"]) "leftHand".
Proof.
  apply mapping_ignores_case.
  - apply list_elem_of_here.
  - apply list_elem_of_further, list_elem_of_here.
  - reflexivity.
Defined.

(** X5. The entries depend on the set of bone names only: skeletons that
    carry the same names, in whatever order and however often, give the same
    entry under every name. *)
Theorem mapping_of_same_names (bones bones' : list Bone) :
  (forall name, name ∈ bone_name <$> bones <-> name ∈ bone_name <$> bones') ->
  forall name, map_get (autoMapBones bones) name = map_get (autoMapBones bones') name.
Proof.
  intros H name. rewrite !autoMapBones_get.
  case_bool_decide as H1; case_bool_decide as H2; try done.
  - by destruct H2; apply H.
  - by destruct H1; apply H.
Qed.

(** A skeleton, and the same bones reversed with one of them doubled. *)
Lemma mapping_of_same_names_witness :
  map_get (autoMapBones [bone 0 "Head"; bone 1 "Neck"]) "Neck"
  = map_get (autoMapBones [bone 1 "Neck"; bone 0 "Head"; bone 2 "Neck"]) "Neck".
Proof.
  apply (mapping_of_same_names [bone 0 "Head"; bone 1 "Neck"]
           [bone 1 "Neck"; bone 0 "Head"; bone 2 "Neck"]).
  intros name. cbn. rewrite !elem_of_cons, !elem_of_nil. tauto.
Defined.

Section Counters.

Lemma map_bone_counted_spec rules boneName st :
  map_bone_counted rules boneName st
  = (map_bone rules boneName st.1,
     if existsb (fun rule => test (pattern rule) boneName) rules
     then {| success := S (success st.2); failed := failed st.2 |}
     else st.2).
Proof.
  induction rules as [|rule rules IH]; simpl; [by destruct st|].
  by destruct (test (pattern rule) boneName).
Qed.

Lemma classified_existsb boneName :
  existsb (fun rule => test (pattern rule) boneName) BONE_PATTERNS = classified boneName.
Proof.
  unfold classified. rewrite classify_find.
  induction BONE_PATTERNS as [|rule rules IH]; simpl; [done|].
  by destruct (test (pattern rule) boneName).
Qed.

Lemma autoMapBones_counted_snoc bones b :
  autoMapBones_counted (bones ++ [b])
  = let st := map_bone_counted BONE_PATTERNS (bone_name b) (autoMapBones_counted bones) in
    if negb (map_has st.1 (bone_name b))
    then (st.1, {| success := success st.2; failed := S (failed st.2) |})
    else st.
Proof. unfold autoMapBones_counted. by rewrite fold_left_app. Qed.

Lemma autoMapBones_has_last bones b :
  map_has (autoMapBones (bones ++ [b])) (bone_name b) = classified (bone_name b).
Proof.
  unfold map_has, classified. rewrite autoMapBones_get, fmap_app.
  rewrite bool_decide_eq_true_2; [done|].
  apply elem_of_app. right. apply list_elem_of_here.
Qed.

Lemma autoMapBones_counted_spec bones :
  (autoMapBones_counted bones).1 = autoMapBones bones
  /\ success (autoMapBones_counted bones).2
     = length (List.filter (fun b => classified (bone_name b)) bones)
  /\ failed (autoMapBones_counted bones).2
     = length (List.filter (fun b => negb (classified (bone_name b))) bones).
Proof.
  induction bones as [|b bones (IH1 & IH2 & IH3)] using rev_ind; [done|].
  rewrite autoMapBones_counted_snoc, map_bone_counted_spec, classified_existsb.
  cbn zeta. cbn [fst snd]. rewrite IH1, <- autoMapBones_snoc, autoMapBones_has_last.
  rewrite !List.filter_app, !length_app. cbn [List.filter].
  destruct (classified (bone_name b)); cbn; rewrite ?IH2, ?IH3;
    repeat split; lia.
Qed.

Lemma filter_split_length {A} (f : A -> bool) (l : list A) :
  (length (List.filter f l) + length (List.filter (fun a => negb (f a)) l)
   = length l)%nat.
Proof.
  induction l as [|a l IH]; [done|]. cbn [List.filter].
  destruct (f a); cbn; lia.
Qed.

End Counters.

(** X6. The counters of [autoMapBones] split the skeleton: the mapping
    built beside them is the one [autoMapBones] returns, [success] is the
    number of bones whose name some rule matches (a name met twice counts
    twice), [failed] the number of the others, and together they make the
    number of bones. *)
Theorem mapped_count_splits (bones : list Bone) :
  (autoMapBones_counted bones).1 = autoMapBones bones
  /\ success (autoMapBones_counted bones).2
     = length (List.filter (fun b => classified (bone_name b)) bones)
  /\ failed (autoMapBones_counted bones).2
     = length (List.filter (fun b => negb (classified (bone_name b))) bones)
  /\ (success (autoMapBones_counted bones).2 + failed (autoMapBones_counted bones).2
      = length bones)%nat.
Proof.
  destruct (autoMapBones_counted_spec bones) as (H1 & H2 & H3).
  repeat split; try done. rewrite H2, H3. apply filter_split_length.
Qed.

(** * Further properties of the renaming *)

Section Renaming.

Lemma rename_bone_names bones k t b' :
  b' ∈ rename_bone bones k t ->
  bone_name b' ∈ bone_name <$> bones \/ bone_name b' = t.
Proof.
  unfold rename_bone. destruct (findBoneByName bones k) as [i|].
  - intros [j Hj]%list_elem_of_lookup_1.
    destruct (decide (i = j)) as [->|Hne].
    + rewrite list_lookup_alter_eq in Hj.
      destruct (bones !! j) as [b|]; [|done]. injection Hj as <-. by right.
    + rewrite list_lookup_alter_ne in Hj by done. left.
      apply list_elem_of_fmap. exists b'. split; [done|].
      by eapply list_elem_of_lookup_2.
  - intros Hb. left. apply list_elem_of_fmap. by exists b'.
Qed.

(** Once every classified bone carries the name the mapping holds for it,
    a run of [applyMapping] finds nothing to rename. *)
Lemma applyMapping_canonical_stable bones mapping :
  NoDup mapping.*1 -> no_chained_rename mapping = true ->
  applyMapping (canonical_name mapping <$> bones) mapping
  = canonical_name mapping <$> bones.
Proof.
  intros Hkeys Hchain. apply applyMapping_nothing_left.
  intros k t b' Hin Hkt (b & -> & Hb)%list_elem_of_fmap.
  unfold canonical_name.
  destruct (map_get mapping (bone_name b)) as [v|] eqn:E; simpl.
  - intros ->. destruct Hkt. symmetry.
    eapply (no_chained_rename_spec _ (bone_name b) k t Hchain).
    + by apply map_get_elem.
    + by apply map_get_NoDup.
  - intros Hn. rewrite Hn in E. by rewrite (map_get_NoDup _ _ _ Hkeys Hin) in E.
Qed.

Lemma canonical_name_autoMap bones b :
  b ∈ bones ->
  canonical_name (autoMapBones bones) b
  = match classify (bone_name b) with
    | Some t => set_bone_name t b
    | None => b
    end.
Proof.
  intros Hb. unfold canonical_name. rewrite autoMapBones_get.
  rewrite bool_decide_eq_true_2; [done|].
  apply list_elem_of_fmap. by exists b.
Qed.

Lemma table_targets_fixed :
  forallb
    (fun rule =>
       String.eqb (target rule) "LeftForeArm" || String.eqb (target rule) "RightForeArm"
       || bool_decide (classify (target rule) = Some (target rule)))
    BONE_PATTERNS = true.
Proof. by vm_compute. Qed.

Lemma table_targets_dotless :
  forallb (fun rule => dotless (target rule)) BONE_PATTERNS = true.
Proof. by vm_compute. Qed.

Lemma required_classify_self :
  forallb (fun name => bool_decide (classify name = Some name)) requiredBones = true.
Proof. by vm_compute. Qed.

Lemma standard_classified :
  forallb classified STANDARD_BONES = true.
Proof. by vm_compute. Qed.

Lemma validateBones_isValid bones :
  isValid (validateBones bones) = true
  <-> forall name, name ∈ requiredBones -> name ∈ bone_name <$> bones.
Proof.
  change (isValid (validateBones bones))
    with (length (missingBones (validateBones bones)) =? 0)%nat.
  rewrite missingBones_filter, Nat.eqb_eq, length_zero_iff_nil, filter_nil_iff.
  split.
  - intros H name Hname. specialize (H name Hname).
    apply bool_decide_eq_false_1 in H. by apply dec_stable.
  - intros H name Hname. apply bool_decide_eq_false_2. intros Hn. by apply Hn, H.
Qed.

End Renaming.

(** X7. [applyMapping] invents no name: whatever the skeleton and the
    mapping, every bone ends under a name the skeleton had before or under a
    value of the mapping. *)
Theorem applyMapping_names (bones : list Bone) (mapping : Map) (b' : Bone) :
  b' ∈ applyMapping bones mapping ->
  bone_name b' ∈ bone_name <$> bones \/ bone_name b' ∈ mapping.*2.
Proof.
  revert bones. induction mapping as [|[k t] m IH]; intros bones Hb.
  - left. apply list_elem_of_fmap. by exists b'.
  - destruct (IH _ Hb) as [(b & Hn & Hin)%list_elem_of_fmap|Hv].
    + destruct (rename_bone_names _ _ _ _ Hin) as [H|H].
      * left. by rewrite Hn.
      * right. rewrite Hn, H. apply list_elem_of_here.
    + right. by apply list_elem_of_further.
Qed.

(** A renamed bone carries a value of the mapping. *)
Lemma applyMapping_names_witness :
  bone_name (bone 0 "Hips") ∈ bone_name <$> [bone 0 "pelvis_root"]
  \/ bone_name (bone 0 "Hips") ∈ [("pelvis_root", "Hips")].*2.
Proof.
  apply (applyMapping_names [bone 0 "pelvis_root"] [("pelvis_root", "Hips")]).
  apply list_elem_of_here.
Defined.

(** X8. Collision: on a skeleton with distinct names and no chained
    renaming, two bones whose names are classified to the same target both
    end under it, so the names of the skeleton are no longer distinct. *)
Theorem applyMapping_collision
    (bones : list Bone) (i j : nat) (b1 b2 : Bone) (standardName : string) :
  NoDup (bone_name <$> bones) ->
  no_chained_rename (autoMapBones bones) = true ->
  i <> j -> bones !! i = Some b1 -> bones !! j = Some b2 ->
  classify (bone_name b1) = Some standardName ->
  classify (bone_name b2) = Some standardName ->
  applyMapping bones (autoMapBones bones) !! i = Some (set_bone_name standardName b1)
  /\ applyMapping bones (autoMapBones bones) !! j = Some (set_bone_name standardName b2)
  /\ ~ NoDup (bone_name <$> applyMapping bones (autoMapBones bones)).
Proof.
  intros Hnd Hchain Hij Hi Hj H1 H2.
  rewrite (applyMapping_canonical _ _ Hnd (autoMapBones_NoDup bones) Hchain).
  assert ((canonical_name (autoMapBones bones) <$> bones) !! i
          = Some (set_bone_name standardName b1)) as Ei.
  { rewrite list_lookup_fmap, Hi. simpl.
    rewrite canonical_name_autoMap by by eapply list_elem_of_lookup_2.
    by rewrite H1. }
  assert ((canonical_name (autoMapBones bones) <$> bones) !! j
          = Some (set_bone_name standardName b2)) as Ej.
  { rewrite list_lookup_fmap, Hj. simpl.
    rewrite canonical_name_autoMap by by eapply list_elem_of_lookup_2.
    by rewrite H2. }
  repeat split; [done..|]. intros Hnd'. apply Hij.
  eapply (NoDup_lookup _ i j standardName Hnd'); rewrite list_lookup_fmap.
  - by rewrite Ei.
  - by rewrite Ej.
Qed.

(** The arm and the forearm of a Mixamo rig end under one name. *)
Lemma applyMapping_collision_witness :
  let bones := [bone 0 "mixamorigLeftArm"; bone 1 "mixamorigLeftForeArm"] in
  applyMapping bones (autoMapBones bones) !! 0%nat = Some (bone 0 "LeftArm")
  /\ applyMapping bones (autoMapBones bones) !! 1%nat = Some (bone 1 "LeftArm")
  /\ ~ NoDup (bone_name <$> applyMapping bones (autoMapBones bones)).
Proof.
  intros bones.
  apply (applyMapping_collision bones 0 1 (bone 0 "mixamorigLeftArm")
           (bone 1 "mixamorigLeftForeArm") "LeftArm").
  - apply (bool_decide_unpack _). by vm_compute.
  - by vm_compute.
  - done.
  - done.
  - done.
  - by vm_compute.
  - by vm_compute.
Defined.

(** X9. On a skeleton with distinct bone names none of which is classified
    as [LeftForeArm] or [RightForeArm], a second run of [applyMapping] with
    the mapping of [autoMapBones] changes nothing: every other target of the
    table is classified as itself. *)
Theorem applyMapping_stable_without_forearm (bones : list Bone) :
  NoDup (bone_name <$> bones) ->
  Forall (fun b => classify (bone_name b) <> Some "LeftForeArm"
                   /\ classify (bone_name b) <> Some "RightForeArm") bones ->
  no_chained_rename (autoMapBones bones) = true
  /\ applyMapping (applyMapping bones (autoMapBones bones)) (autoMapBones bones)
     = applyMapping bones (autoMapBones bones).
Proof.
  intros Hnd Hfore.
  assert (no_chained_rename (autoMapBones bones) = true) as Hchain.
  { apply no_chained_rename_intro. intros k t t' Hin Ht.
    apply (map_get_NoDup _ _ _ (autoMapBones_NoDup bones)) in Hin.
    assert (k ∈ bone_name <$> bones /\ classify k = Some t) as [Hk Hc].
    { rewrite autoMapBones_get in Hin. by case_bool_decide. }
    assert (classify t = Some t') as Hc'.
    { rewrite autoMapBones_get in Ht. by case_bool_decide. }
    apply list_elem_of_fmap in Hk as (b & -> & Hb).
    rewrite Forall_forall in Hfore. destruct (Hfore b Hb) as [Hl Hr].
    destruct (classify_rule _ _ Hc) as (rule & Hrule & _ & <-).
    pose proof table_targets_fixed as Htable. rewrite forallb_forall in Htable.
    apply list_elem_of_In in Hrule. specialize (Htable _ Hrule).
    apply orb_true_iff in Htable as [Hf|Hfix].
    - apply orb_true_iff in Hf as [Hf|Hf]; apply String.eqb_eq in Hf;
        rewrite Hf in Hc; [by destruct Hl|by destruct Hr].
    - apply bool_decide_eq_true_1 in Hfix. congruence. }
  split; [done|].
  rewrite (applyMapping_canonical _ _ Hnd (autoMapBones_NoDup bones) Hchain).
  by apply applyMapping_canonical_stable; [apply autoMapBones_NoDup|].
Qed.

(** A Mixamo arm chain; [mixamorigLeftForeArm] is classified as [LeftArm]. *)
Lemma applyMapping_stable_without_forearm_witness :
  let bones := [bone 0 "mixamorigLeftShoulder"; bone 1 "mixamorigLeftArm";
                bone 2 "mixamorigLeftForeArm"; bone 3 "mixamorigLeftHand"] in
  no_chained_rename (autoMapBones bones) = true
  /\ applyMapping (applyMapping bones (autoMapBones bones)) (autoMapBones bones)
     = applyMapping bones (autoMapBones bones).
Proof.
  intros bones. apply applyMapping_stable_without_forearm.
  - apply (bool_decide_unpack _). by vm_compute.
  - repeat constructor; by vm_compute.
Defined.

(** * The skeleton and its tracks under one mapping *)

Section Pipeline.

Lemma dotless_indexOf s : dotless s = true <-> indexOf s "." = None.
Proof. unfold dotless. by destruct (indexOf s "."). Qed.

Lemma mapping_values_dotless bones k t :
  map_get (autoMapBones bones) k = Some t -> indexOf t "." = None.
Proof.
  rewrite autoMapBones_get. case_bool_decide; [|done]. intros Hc.
  destruct (classify_rule _ _ Hc) as (rule & Hrule & _ & <-).
  pose proof table_targets_dotless as Htable. rewrite forallb_forall in Htable.
  apply dotless_indexOf, Htable. by apply list_elem_of_In.
Qed.

Lemma rename_track_twice bones track :
  no_chained_rename (autoMapBones bones) = true ->
  rename_track (autoMapBones bones) (rename_track (autoMapBones bones) track)
  = rename_track (autoMapBones bones) track.
Proof.
  intros Hchain.
  destruct (indexOf (track_name track) ".") as [d|] eqn:Hd.
  - destruct (indexOf_split _ _ _ Hd) as (pre & rest & Hn & Hp & _).
    change (pre +:+ String "." rest) with (pre +:+ "." +:+ rest) in Hn.
    destruct (map_get (autoMapBones bones) pre) as [t|] eqn:Hm.
    + rewrite (rename_track_mapped _ _ _ _ _ Hn Hp Hm).
      pose proof (mapping_values_dotless _ _ _ Hm) as Ht.
      destruct (map_get (autoMapBones bones) t) as [t'|] eqn:Hm'.
      * rewrite (rename_track_mapped _
                   {| track_curve := track_curve track;
                      track_name := t +:+ "." +:+ rest |} t rest t' eq_refl Ht Hm').
        simpl.
        by rewrite (no_chained_rename_spec _ pre t t' Hchain (map_get_elem _ _ _ Hm) Hm').
      * apply (rename_track_unmapped _
                 {| track_curve := track_curve track;
                    track_name := t +:+ "." +:+ rest |} t rest eq_refl Ht).
        unfold map_has. by rewrite Hm'.
    + assert (rename_track (autoMapBones bones) track = track) as E;
        [|by rewrite !E].
      apply (rename_track_unmapped _ _ pre rest Hn Hp).
      unfold map_has. by rewrite Hm.
  - by rewrite !(rename_track_no_separator _ _ Hd).
Qed.

End Pipeline.

(** X10. Track references stay valid.  On a skeleton with distinct bone
    names and no chained renaming, a track that names a bone of the skeleton
    (its name is the bone's name, which has no separator, then the separator
    and a channel) names that same bone after [applyMapping] and
    [applyMappingToAnimations] have run with the mapping of [autoMapBones],
    whether the bone was renamed or not. *)
Theorem track_follows_bone
    (bones : list Bone) (i : nat) (b : Bone) (track : KeyframeTrack)
    (property : string) :
  NoDup (bone_name <$> bones) ->
  no_chained_rename (autoMapBones bones) = true ->
  bones !! i = Some b ->
  indexOf (bone_name b) "." = None ->
  track_name track = bone_name b +:+ "." +:+ property ->
  exists b',
    applyMapping bones (autoMapBones bones) !! i = Some b'
    /\ bone_id b' = bone_id b
    /\ track_name (rename_track (autoMapBones bones) track)
       = bone_name b' +:+ "." +:+ property.
Proof.
  intros Hnd Hchain Hi Hdot Hn.
  rewrite (applyMapping_canonical _ _ Hnd (autoMapBones_NoDup bones) Hchain).
  rewrite list_lookup_fmap, Hi. simpl. eexists. split; [done|].
  unfold canonical_name.
  destruct (map_get (autoMapBones bones) (bone_name b)) as [t|] eqn:Hm.
  - split; [done|]. by rewrite (rename_track_mapped _ _ _ _ _ Hn Hdot Hm).
  - split; [done|]. rewrite (rename_track_unmapped _ _ _ _ Hn Hdot); [done|].
    unfold map_has. by rewrite Hm.
Qed.

(** The hips of a Mixamo rig and their position track. *)
Lemma track_follows_bone_witness :
  let bones := [bone 0 "mixamorigHips"; bone 1 "Sword"] in
  exists b',
    applyMapping bones (autoMapBones bones) !! 0%nat = Some b'
    /\ bone_id b' = 0%nat
    /\ track_name (rename_track (autoMapBones bones)
                     {| track_curve := 7; track_name := "mixamorigHips.position" |})
       = bone_name b' +:+ "." +:+ "position".
Proof.
  intros bones.
  apply (track_follows_bone bones 0 (bone 0 "mixamorigHips")
           {| track_curve := 7; track_name := "mixamorigHips.position" |} "position").
  - apply (bool_decide_unpack _). by vm_compute.
  - by vm_compute.
  - done.
  - done.
  - done.
Defined.

(** X11. With a mapping of [autoMapBones] that has no chained renaming, a
    second run of [applyMappingToAnimations] changes no track: the names the
    table gives have no separator and are renamed, if at all, to
    themselves. *)
Theorem applyMappingToAnimations_idempotent
    (bones : list Bone) (animations : list AnimationClip) :
  no_chained_rename (autoMapBones bones) = true ->
  applyMappingToAnimations
    (applyMappingToAnimations animations (autoMapBones bones)) (autoMapBones bones)
  = applyMappingToAnimations animations (autoMapBones bones).
Proof.
  intros Hchain. unfold applyMappingToAnimations.
  rewrite <- list_fmap_compose. apply list_fmap_ext. intros ? clip _. simpl.
  f_equal. rewrite <- list_fmap_compose. apply list_fmap_ext. intros ? track _.
  simpl. by apply rename_track_twice.
Qed.

(** A clip of a Mixamo rig, renamed once and twice. *)
Lemma applyMappingToAnimations_idempotent_witness :
  let bones := [bone 0 "mixamorigHips"; bone 1 "Hips"] in
  let clips :=
    [ {| clip_name := "Idle";
         tracks := [ {| track_curve := 0; track_name := "mixamorigHips.position" |};
                     {| track_curve := 1; track_name := "Hips.quaternion" |} ] |} ] in
  applyMappingToAnimations (applyMappingToAnimations clips (autoMapBones bones))
                           (autoMapBones bones)
  = applyMappingToAnimations clips (autoMapBones bones).
Proof.
  intros bones clips. apply applyMappingToAnimations_idempotent. by vm_compute.
Defined.

(** X12. Acceptance after normalisation.  On a skeleton with distinct bone
    names and no chained renaming, [validateBones] accepts the skeleton
    renamed by [applyMapping] under the mapping of [autoMapBones] exactly
    when each of the seven required names is the classification of some
    bone of the skeleton. *)
Theorem normalised_skeleton_valid (bones : list Bone) :
  NoDup (bone_name <$> bones) ->
  no_chained_rename (autoMapBones bones) = true ->
  isValid (validateBones (applyMapping bones (autoMapBones bones))) = true
  <-> forall name,
        name ∈ ["Hips"; "Spine"; "Head"; "LeftArm"; "RightArm"; "LeftLeg"; "RightLeg"] ->
        exists b, b ∈ bones /\ classify (bone_name b) = Some name.
Proof.
  intros Hnd Hchain.
  rewrite (applyMapping_canonical _ _ Hnd (autoMapBones_NoDup bones) Hchain).
  rewrite validateBones_isValid.
  assert (forall name, name ∈ requiredBones ->
            (name ∈ bone_name <$> (canonical_name (autoMapBones bones) <$> bones)
             <-> exists b, b ∈ bones /\ classify (bone_name b) = Some name)) as Hiff.
  { intros name Hreq.
    assert (classify name = Some name) as Hself.
    { pose proof required_classify_self as H. rewrite forallb_forall in H.
      apply list_elem_of_In in Hreq. specialize (H _ Hreq).
      by apply bool_decide_eq_true_1 in H. }
    rewrite <- list_fmap_compose, list_elem_of_fmap. split.
    - intros (b & Hn & Hb). exists b. split; [done|]. simpl in Hn.
      rewrite canonical_name_autoMap in Hn by done.
      destruct (classify (bone_name b)) as [t|] eqn:E; simpl in Hn; congruence.
    - intros (b & Hb & Hc). exists b. split; [|done]. simpl.
      rewrite canonical_name_autoMap by done. by rewrite Hc. }
  split; intros H name Hname; apply Hiff; auto.
Qed.

(** The seven Mixamo bones that are classified to the required names. *)
Lemma normalised_skeleton_valid_witness :
  isValid
    (validateBones
       (applyMapping
          [bone 0 "mixamorigHips"; bone 1 "mixamorigSpine"; bone 2 "mixamorigHead";
           bone 3 "mixamorigLeftArm"; bone 4 "mixamorigRightArm";
           bone 5 "mixamorigLeftLeg"; bone 6 "mixamorigRightLeg"]
          (autoMapBones
             [bone 0 "mixamorigHips"; bone 1 "mixamorigSpine"; bone 2 "mixamorigHead";
              bone 3 "mixamorigLeftArm"; bone 4 "mixamorigRightArm";
              bone 5 "mixamorigLeftLeg"; bone 6 "mixamorigRightLeg"]))) = true.
Proof.
  apply normalised_skeleton_valid.
  - apply (bool_decide_unpack _). by vm_compute.
  - by vm_compute.
  - intros name Hname.
    repeat (apply elem_of_cons in Hname as [->|Hname]);
      [exists (bone 0 "mixamorigHips") | exists (bone 1 "mixamorigSpine")
      | exists (bone 2 "mixamorigHead") | exists (bone 3 "mixamorigLeftArm")
      | exists (bone 4 "mixamorigRightArm") | exists (bone 5 "mixamorigLeftLeg")
      | exists (bone 6 "mixamorigRightLeg") | by apply elem_of_nil in Hname];
      (split; [repeat constructor|by vm_compute]).
Defined.

(** * Statistics *)

Section Statistics.

Lemma standard_after_mapping bones (l : list Bone) :
  (forall b, b ∈ l -> b ∈ bones) ->
  List.filter (fun b => isStandardBone (bone_name b))
              (canonical_name (autoMapBones bones) <$> l)
  = canonical_name (autoMapBones bones)
    <$> List.filter (fun b => classified (bone_name b)) l.
Proof.
  induction l as [|b l IH]; intros Hl; [done|].
  assert (isStandardBone (bone_name (canonical_name (autoMapBones bones) b))
          = classified (bone_name b)) as Hb.
  { rewrite canonical_name_autoMap by apply Hl, list_elem_of_here.
    unfold classified. destruct (classify (bone_name b)) as [t|] eqn:E.
    - cbn [bone_name set_bone_name].
      destruct (classify_rule _ _ E) as (rule & Hrule & _ & <-).
      pose proof table_targets_standard as Htable. rewrite forallb_forall in Htable.
      apply Htable. by apply list_elem_of_In.
    - destruct (isStandardBone (bone_name b)) eqn:Hs; [|done].
      apply array_includes_spec in Hs.
      pose proof standard_classified as Hall. rewrite forallb_forall in Hall.
      apply list_elem_of_In in Hs. specialize (Hall _ Hs).
      unfold classified in Hall. by rewrite E in Hall. }
  rewrite fmap_cons. cbn [List.filter]. rewrite Hb.
  rewrite IH by (intros b' Hb'; apply Hl; by apply list_elem_of_further).
  by destruct (classified (bone_name b)).
Qed.

End Statistics.

(** X13. The counts of [getBoneStatistics] add up on every skeleton:
    [totalBones] is the number of bones and [standardBones] and
    [nonStandardBones] together make it.  After normalisation they are the
    counters of [autoMapBones]: on a skeleton with distinct bone names and no
    chained renaming, once [applyMapping] has run with the mapping of
    [autoMapBones], the standard bones are exactly the bones that were
    classified and the others are the failures. *)
Theorem statistics_after_mapping :
  (forall bones : list Bone,
      totalBones (getBoneStatistics bones) = length bones
      /\ (standardBones (getBoneStatistics bones)
          + nonStandardBones (getBoneStatistics bones)
          = totalBones (getBoneStatistics bones))%nat)
  /\ (forall bones : list Bone,
         NoDup (bone_name <$> bones) ->
         no_chained_rename (autoMapBones bones) = true ->
         let stats := getBoneStatistics (applyMapping bones (autoMapBones bones)) in
         totalBones stats = length bones
         /\ standardBones stats = success (autoMapBones_counted bones).2
         /\ nonStandardBones stats = failed (autoMapBones_counted bones).2).
Proof.
  split.
  - intros bones. unfold getBoneStatistics.
    cbn [totalBones standardBones nonStandardBones]. split; [done|].
    pose proof (filter_split_length (fun b => isStandardBone (bone_name b)) bones)
      as Hsplit.
    cbv beta in Hsplit. lia.
  - intros bones Hnd Hchain stats. unfold stats, getBoneStatistics.
    cbn [totalBones standardBones nonStandardBones].
    rewrite (applyMapping_canonical _ _ Hnd (autoMapBones_NoDup bones) Hchain).
    rewrite standard_after_mapping by done. rewrite !length_fmap.
    destruct (autoMapBones_counted_spec bones) as (_ & -> & ->).
    pose proof (filter_split_length (fun b => classified (bone_name b)) bones)
      as Hsplit.
    cbv beta in Hsplit. repeat split; lia.
Qed.

(** A rig of two Mixamo bones and a prop, and a skeleton with a doubled
    name on which the counts add up as well. *)
Lemma statistics_after_mapping_witness :
  (let bones := [bone 0 "mixamorigHips"; bone 1 "Sword"; bone 2 "mixamorigHead"] in
   let stats := getBoneStatistics (applyMapping bones (autoMapBones bones)) in
   totalBones stats = 3%nat
   /\ standardBones stats = success (autoMapBones_counted bones).2
   /\ nonStandardBones stats = failed (autoMapBones_counted bones).2)
  /\ (let stats := getBoneStatistics [bone 0 "Hips"; bone 1 "Hips"; bone 2 "Sword"] in
      totalBones stats = 3%nat
      /\ (standardBones stats + nonStandardBones stats = totalBones stats)%nat).
Proof.
  split.
  - intros bones. apply (proj2 statistics_after_mapping bones).
    + apply (bool_decide_unpack _). by vm_compute.
    + by vm_compute.
  - intros stats.
    apply (proj1 statistics_after_mapping [bone 0 "Hips"; bone 1 "Hips"; bone 2 "Sword"]).
Defined.

(** * Further properties of the validator *)

Section ValidatorPaths.
Import FBXValidator.

Lemma validate_mesh_hasMesh fbx mesh i :
  hasMesh (info (validate_mesh fbx mesh i)) = hasMesh i.
Proof.
  unfold validate_mesh, validate_mesh_in. destruct (skeleton mesh) as [skel|]; [|done].
  destruct (length (bones skel) =? 0)%nat; [done|].
  by destruct (material mesh) as [[m|ms]|].
Qed.

Lemma selected_mesh_None fbx :
  selected_mesh fbx = None
  <-> forall o, o ∈ preorder (scene fbx) -> skinned o = None.
Proof.
  unfold selected_mesh. rewrite last_None. split.
  - intros H o Ho. destruct (skinned o) as [m|] eqn:E; [|done].
    assert (m ∈ omap skinned (preorder (scene fbx))) as Hm
      by (apply list_elem_of_omap; by exists o).
    rewrite H in Hm. by apply elem_of_nil in Hm.
  - intros H. apply omap_skinned_none, Forall_forall. done.
Qed.

(** The warnings, check by check, when the skeleton has bones. *)
Lemma validate_mesh_warnings fbx mesh i skel :
  skeleton mesh = Some skel -> length (bones skel) <> 0%nat ->
  warnings (validate_mesh fbx mesh i)
  = (if number_lt (vec_y (box_size mesh)) tenth
     then ["⚠️  Mesh is very small (height < 0.1 units)";
           "   → Current size: " +:+ show_size (box_size mesh);
           "   → Will be scaled up automatically"]
     else [])
    ++ (if (0 <? length (missing_expected (bone_name <$> bones skel)))%nat
        then ["⚠️  Missing some expected bones: "
                +:+ join ", " (take 3 (missing_expected (bone_name <$> bones skel)))
                +:+ (if (3 <? length (missing_expected (bone_name <$> bones skel)))%nat
                     then "..." else "");
              "   → Animation may not work correctly"]
        else [])
    ++ (if (match animations fbx with Some a => length a | None => 0%nat end =? 0)%nat
        then ["⚠️  No animations found in FBX file";
              "   → Character will be static (T-pose)"]
        else [])
    ++ match material mesh with
       | Some mat =>
           if existsb has_map (match mat with inl m => [m] | inr ms => ms end)
           then []
           else ["⚠️  No textures found";
                 "   → Character will use default material colors"]
       | None => []
       end.
Proof.
  intros H H0. unfold validate_mesh, validate_mesh_in. rewrite H.
  destruct (length (bones skel) =? 0)%nat eqn:E; [by apply Nat.eqb_eq in E|].
  fold (uses_mixamo_names (bone_name <$> bones skel)).
  fold (missing_expected (bone_name <$> bones skel)).
  destruct (material mesh) as [[m|ms]|]; cbn [warnings animationCount hasTextures
    set_animationCount set_hasTextures];
    try (destruct (existsb has_map _); cbn [negb]);
    repeat match goal with
           | |- context [if ?c then _ else _] => destruct c
           end;
    reflexivity.
Qed.

End ValidatorPaths.

Section ValidatorVerdict.
Import FBXValidator.

Lemma negb_array_includes xs x :
  negb (array_includes xs x) = bool_decide (x ∉ xs).
Proof.
  destruct (array_includes xs x) eqn:E; simpl; symmetry.
  - apply bool_decide_eq_false_2. intros H. by apply H, array_includes_spec.
  - apply bool_decide_eq_true_2. intros H%array_includes_spec. congruence.
Qed.

Lemma missing_expected_required boneNames :
  uses_mixamo_names boneNames = false ->
  missing_expected boneNames
  = List.filter (fun name => bool_decide (name ∉ boneNames)) requiredBones.
Proof.
  intros H. unfold missing_expected. rewrite H.
  apply filter_ext. intros name. apply negb_array_includes.
Qed.

End ValidatorVerdict.

(** X14. The verdict of the validator: [isValid] is true exactly when the
    asset has a skinned mesh and the one the validator looks at has extent
    along all three axes and a skeleton of at least 20 bones.  Bone names,
    animations and textures have no part in it: they only give warnings. *)
Theorem valid_iff (fbx : Group) :
  FBXValidator.isValid (FBXValidator.validateFBXGroup fbx) = true
  <-> exists mesh skel,
        selected_mesh fbx = Some mesh
        /\ degenerate (box_size mesh) = false
        /\ skeleton mesh = Some skel
        /\ (20 <= length (bones skel))%nat.
Proof.
  destruct (selected_mesh fbx) as [mesh|] eqn:Hsel.
  - rewrite (validateFBXGroup_selected _ _ Hsel).
    destruct (skeleton mesh) as [skel|] eqn:Hskel.
    + destruct (decide (length (bones skel) = 0%nat)) as [H0|H0].
      * destruct (validate_mesh_no_bones fbx mesh (mesh_met FBXValidator.initial_info)
                    skel Hskel H0) as [-> _].
        split; [done|]. intros (m & s & [= <-] & _ & Hs & Hlen).
        rewrite Hskel in Hs. injection Hs as <-. lia.
      * destruct (validate_mesh_with_bones fbx mesh (mesh_met FBXValidator.initial_info)
                    skel Hskel H0) as (He & -> & _).
        rewrite He, Nat.eqb_eq, length_zero_iff_nil. split.
        -- intros [Ha Hb]%app_eq_nil. exists mesh, skel.
           destruct (degenerate (box_size mesh)); [done|].
           destruct (length (bones skel) <? FBXValidator.MIN_BONE_COUNT)%nat eqn:E;
             [done|].
           apply Nat.ltb_ge in E. by repeat split.
        -- intros (m & s & [= <-] & Hd & Hs & Hlen).
           rewrite Hskel in Hs. injection Hs as <-. rewrite Hd.
           by replace (length (bones skel) <? FBXValidator.MIN_BONE_COUNT)%nat
             with false by (symmetry; by apply Nat.ltb_ge).
    + rewrite (validate_mesh_no_skeleton _ _ _ Hskel). cbn.
      split; [done|]. intros (m & s & [= <-] & _ & Hs & _). congruence.
  - rewrite (validateFBXGroup_no_mesh _ Hsel). cbn.
    split; [done|]. by intros (m & s & ? & _).
Qed.

(** X15. An asset is reported with the "no skinned mesh" critical error,
    no warning and the info record untouched (no mesh, no measures) exactly
    when no node of its scene graph is a skinned mesh. *)
Theorem no_mesh_report (fbx : Group) :
  (forall o, o ∈ preorder (scene fbx) -> skinned o = None)
  <-> FBXValidator.validateFBXGroup fbx
      = {| FBXValidator.isValid := false;
           FBXValidator.errors :=
             ["❌ CRITICAL: No SkinnedMesh found in FBX file";
              "   → This file cannot be used for character rigging"];
           FBXValidator.warnings := [];
           FBXValidator.info := FBXValidator.initial_info |}.
Proof.
  rewrite <- selected_mesh_None. split.
  - apply validateFBXGroup_no_mesh.
  - intros H. destruct (selected_mesh fbx) as [mesh|] eqn:Hsel; [|done].
    rewrite (validateFBXGroup_selected _ _ Hsel) in H.
    apply (f_equal (fun r => FBXValidator.hasMesh (FBXValidator.info r))) in H.
    by rewrite validate_mesh_hasMesh in H.
Qed.

(** X16. When the skeleton of the mesh the validator looks at has no
    bone, what happens turns on the call of three.js that measures the mesh
    in step 2.  Where that call throws, the validator gives no report.
    Where it returns, the validator stops at the bone check: [isValid] is
    false, the errors end with the "no bones" critical error (after the
    zero-size error and its size line, if the mesh has no extent), and the
    animation and texture checks are not reached, so that their fields stay
    0 and false whatever the asset holds, while the size is recorded.  The
    size is shown with two decimals when every extent is below 10^21. *)
Theorem empty_skeleton_report
    (measures : SkinnedMesh -> bool) (exponent : number -> string)
    (fbx : Group) (mesh : SkinnedMesh) (skel : Skeleton) :
  selected_mesh fbx = Some mesh ->
  skeleton mesh = Some skel ->
  bones skel = [] ->
  (measures mesh = false ->
   FBXValidator.validateFBXGroup_in measures exponent fbx = None)
  /\ (measures mesh = true ->
      exists report : FBXValidator.FBXValidationResult,
        FBXValidator.validateFBXGroup_in measures exponent fbx = Some report
        /\ FBXValidator.isValid report = false
        /\ FBXValidator.errors report
           = (if degenerate (box_size mesh)
              then ["❌ CRITICAL: Mesh has zero size in one or more dimensions";
                    "   → Size: "
                      +:+ FBXValidator.show_size_in
                            (FBXValidator.toFixed2_in exponent) (box_size mesh)]
              else [])
             ++ ["❌ CRITICAL: Skeleton has no bones"]
        /\ FBXValidator.boneCount (FBXValidator.info report) = 0%nat
        /\ FBXValidator.animationCount (FBXValidator.info report) = 0%nat
        /\ FBXValidator.hasTextures (FBXValidator.info report) = false
        /\ FBXValidator.meshSize (FBXValidator.info report) = Some (box_size mesh))
  /\ (printable (box_size mesh) = true ->
      FBXValidator.show_size_in (FBXValidator.toFixed2_in exponent) (box_size mesh)
      = FBXValidator.show_size (box_size mesh)).
Proof.
  intros Hsel Hskel Hb. rewrite (validateFBXGroup_in_selected _ _ _ _ Hsel).
  split; [by intros ->|]. split; [|apply show_size_printable].
  intros ->. eexists. split; [reflexivity|].
  unfold FBXValidator.validate_mesh_in. rewrite Hskel, Hb. by repeat split.
Qed.

(** A textured mesh with an empty skeleton in an asset with one clip, with
    a three.js that measures it. *)
Lemma empty_skeleton_report_witness :
  let mesh :=
    {| skeleton := Some (rig 0);
       material := Some (inl (MeshStandardMaterial (Some 1%nat)));
       box_size := {| vec_x := 1%Q; vec_y := 2%Q; vec_z := 1%Q |};
       box_min := {| vec_x := 0%Q; vec_y := 0%Q; vec_z := 0%Q |};
       box_max := {| vec_x := 1%Q; vec_y := 2%Q; vec_z := 1%Q |} |} in
  let fbx :=
    {| scene := Object None [Object (Some mesh) []];
       animations := Some [ {| clip_name := "Idle"; tracks := [] |} ] |} in
  exists report : FBXValidator.FBXValidationResult,
    FBXValidator.validateFBXGroup_in measures_geometry exponent_unused fbx
    = Some report
    /\ FBXValidator.isValid report = false
    /\ FBXValidator.errors report = ["❌ CRITICAL: Skeleton has no bones"]
    /\ FBXValidator.boneCount (FBXValidator.info report) = 0%nat
    /\ FBXValidator.animationCount (FBXValidator.info report) = 0%nat
    /\ FBXValidator.hasTextures (FBXValidator.info report) = false
    /\ FBXValidator.meshSize (FBXValidator.info report) = Some (box_size mesh).
Proof.
  intros mesh fbx.
  exact (proj1 (proj2 (empty_skeleton_report measures_geometry exponent_unused
                         fbx mesh (rig 0) eq_refl eq_refl eq_refl))
               eq_refl).
Defined.

(** X17. On a skeleton with bones none of whose names holds [mixamorig],
    the validator's warning on missing bones agrees with [validateBones]:
    the warning is given exactly when [validateBones] rejects the
    skeleton. *)
Theorem missing_warning_agrees
    (fbx : Group) (mesh : SkinnedMesh) (skel : Skeleton) :
  selected_mesh fbx = Some mesh ->
  skeleton mesh = Some skel ->
  bones skel <> [] ->
  uses_mixamo_names (bone_name <$> bones skel) = false ->
  "   → Animation may not work correctly"
    ∈ FBXValidator.warnings (FBXValidator.validateFBXGroup fbx)
  <-> isValid (validateBones (bones skel)) = false.
Proof.
  intros Hsel Hskel Hb Hmix. rewrite (validateFBXGroup_selected _ _ Hsel).
  rewrite (validate_mesh_warnings _ _ _ _ Hskel)
    by (intros H%length_zero_iff_nil; done).
  rewrite (missing_expected_required _ Hmix), <- missingBones_filter.
  change (isValid (validateBones (bones skel)))
    with (length (missingBones (validateBones (bones skel))) =? 0)%nat.
  rewrite !elem_of_app. split.
  - intros [H|[H|[H|H]]].
    + destruct (FBXValidator.number_lt _ _); [|by apply elem_of_nil in H].
      repeat (apply elem_of_cons in H as [H|H]); try discriminate;
        try (by apply elem_of_nil in H).
    + destruct (length (missingBones (validateBones (bones skel)))); [|done].
      by apply elem_of_nil in H.
    + destruct (_ =? 0)%nat; [|by apply elem_of_nil in H].
      repeat (apply elem_of_cons in H as [H|H]); try discriminate.
      by apply elem_of_nil in H.
    + destruct (material mesh) as [mat|]; [|by apply elem_of_nil in H].
      destruct (existsb _ _); [by apply elem_of_nil in H|].
      repeat (apply elem_of_cons in H as [H|H]); try discriminate.
      by apply elem_of_nil in H.
  - intros H. right. left.
    destruct (length (missingBones (validateBones (bones skel)))); [done|].
    cbn [Nat.ltb Nat.leb]. apply list_elem_of_further, list_elem_of_here.
Qed.

(** A rig of 25 unnamed joints: the warning is given. *)
Lemma missing_warning_agrees_witness :
  "   → Animation may not work correctly"
    ∈ FBXValidator.warnings
        (FBXValidator.validateFBXGroup
           {| scene := Object None [Object (Some (unit_mesh (Some (rig 25)))) []];
              animations := None |}).
Proof.
  apply (missing_warning_agrees
           {| scene := Object None [Object (Some (unit_mesh (Some (rig 25)))) []];
              animations := None |}
           (unit_mesh (Some (rig 25))) (rig 25)).
  - reflexivity.
  - reflexivity.
  - discriminate.
  - by vm_compute.
  - by vm_compute.
Defined.

(** * The loader *)

Section Loader.

Lemma loader_visit_fold nodes st :
  fold_left (fun s' n => CharacterLoader.visit n s') nodes st
  = match last (omap skinned nodes) with
    | Some m => Some m
    | None => st
    end.
Proof.
  revert st. induction nodes as [|n nodes IH]; intros st; [done|].
  cbn [fold_left]. rewrite IH. unfold CharacterLoader.visit.
  destruct n as [[m|] cs]; simpl.
  - rewrite last_cons. by destruct (last _).
  - done.
Qed.

Lemma loader_finds_selected fbx :
  traverse CharacterLoader.visit (scene fbx) None = selected_mesh fbx.
Proof.
  rewrite traverse_preorder, loader_visit_fold. unfold selected_mesh.
  by destruct (last _).
Qed.

End Loader.

(** X18. Loader and validator look at the same mesh.  When [loadCharacter]
    returns an asset, its mesh is the last skinned mesh of the scene graph,
    its skeleton is that mesh's, and the validator's report on the raw
    group is its report on that mesh.  When [loadCharacter] throws instead,
    the message names the URL and the missing skinned mesh, and the
    validator reports the asset with its own "no skinned mesh" error. *)
Theorem loader_agrees_with_validator (fbxUrl : string) (fbx : Group) :
  match CharacterLoader.loadCharacter fbxUrl fbx with
  | inr character =>
      selected_mesh fbx = Some (CharacterLoader.mesh character)
      /\ CharacterLoader.skeleton character = skeleton (CharacterLoader.mesh character)
      /\ CharacterLoader.mixer character = CharacterLoader.mesh character
      /\ CharacterLoader.rawFbx character = fbx
      /\ FBXValidator.validateFBXGroup (CharacterLoader.rawFbx character)
         = FBXValidator.validateFBXGroup (only_mesh fbx (CharacterLoader.mesh character))
      /\ FBXValidator.hasMesh
           (FBXValidator.info (FBXValidator.validateFBXGroup fbx)) = true
  | inl message =>
      message = "Failed to load character from " +:+ fbxUrl
                +:+ ": No SkinnedMesh found in FBX"
      /\ selected_mesh fbx = None
      /\ FBXValidator.errors (FBXValidator.validateFBXGroup fbx)
         = ["❌ CRITICAL: No SkinnedMesh found in FBX file";
            "   → This file cannot be used for character rigging"]
  end.
Proof.
  unfold CharacterLoader.loadCharacter. rewrite loader_finds_selected.
  destruct (selected_mesh fbx) as [mesh|] eqn:Hsel;
    cbn [CharacterLoader.mesh CharacterLoader.skeleton CharacterLoader.mixer
         CharacterLoader.rawFbx].
  - repeat split.
    + rewrite (validateFBXGroup_selected _ _ Hsel).
      by rewrite (validateFBXGroup_selected (only_mesh fbx mesh) mesh).
    + rewrite (validateFBXGroup_selected _ _ Hsel). by rewrite validate_mesh_hasMesh.
  - repeat split. by rewrite (validateFBXGroup_no_mesh _ Hsel).
Qed.

(** * Root keywords in the rule table *)

Section RootKeywords.

Lemma canon_string_nil s : canon_string s = "" -> s = "".
Proof. by destruct s. Qed.

(** A literal matches any input that starts with it up to case. *)
Lemma lit_matches w i pre rest :
  canon_string pre = canon_string w ->
  ends (lit w) (i, pre +:+ rest) = [((i + String.length w)%nat, rest)].
Proof.
  revert i pre. induction w as [|c w IH]; intros i pre Hc.
  - apply canon_string_nil in Hc as ->. simpl. by rewrite Nat.add_0_r.
  - destruct pre as [|a pre]; [done|]. simpl in Hc. injection Hc as Ha Hp.
    assert (ends (Chr c) (i, String a pre +:+ rest) = [(S i, pre +:+ rest)]) as Hchr.
    { rewrite string_app_cons. cbn. unfold char_matcher. cbn.
      by rewrite Ha, Ascii.eqb_refl. }
    destruct w as [|c' w].
    + apply canon_string_nil in Hp as ->.
      change (lit (String c "")) with (Chr c). rewrite Hchr.
      cbn [String.length]. by rewrite Nat.add_1_r.
    + change (lit (String c (String c' w)))
        with (Seq (Chr c) (lit (String c' w))).
      change (ends (Seq (Chr c) (lit (String c' w))) (i, String a pre +:+ rest))
        with (flat_map (ends (lit (String c' w)))
                       (ends (Chr c) (i, String a pre +:+ rest))).
      rewrite Hchr. cbn [flat_map]. rewrite (IH (S i) pre Hp).
      rewrite app_nil_r. do 2 f_equal. cbn [String.length]. lia.
Qed.

Lemma exec_skip r i skip rest :
  matches_at r ((i + String.length skip)%nat, rest) = true ->
  exec r i (skip +:+ rest) = true.
Proof.
  revert i. induction skip as [|a skip IH]; intros i H.
  - cbn [String.length] in H. rewrite Nat.add_0_r in H.
    change ("" +:+ rest) with rest. destruct rest; simpl; by rewrite H.
  - rewrite string_app_cons. cbn [exec].
    destruct (matches_at r (i, String a (skip +:+ rest))); [done|].
    apply IH. cbn [String.length] in H. by rewrite Nat.add_succ_r in H.
Qed.

Lemma matches_at_alt r1 r2 x :
  matches_at (Alt r1 r2) x = matches_at r1 x || matches_at r2 x.
Proof. unfold matches_at. simpl. by destruct (ends r1 x). Qed.

Lemma test_keyword r w before keyword after :
  canon_string keyword = canon_string w ->
  (forall x, matches_at (lit w) x = true -> matches_at r x = true) ->
  test r (before +:+ keyword +:+ after) = true.
Proof.
  intros Hc Hr. apply exec_skip, Hr. unfold matches_at.
  by rewrite (lit_matches w _ keyword after Hc).
Qed.

End RootKeywords.

(** X19. The root keywords come first: a bone whose name holds [hips],
    [root] or [armature] anywhere, in whatever letter case, is mapped to
    [Hips], whatever else the name says. *)
Theorem root_keyword_maps_to_hips
    (bones : list Bone) (before keyword after : string) :
  before +:+ keyword +:+ after ∈ bone_name <$> bones ->
  canon_string keyword = "HIPS" \/ canon_string keyword = "ROOT"
  \/ canon_string keyword = "ARMATURE" ->
  map_get (autoMapBones bones) (before +:+ keyword +:+ after) = Some "Hips".
Proof.
  intros Hin Hkw. rewrite autoMapBones_get, bool_decide_eq_true_2 by done.
  assert (test (lit "hips" ||| lit "root" ||| lit "armature")%re
               (before +:+ keyword +:+ after) = true) as Hloose.
  { destruct Hkw as [Hk|[Hk|Hk]].
    - apply (test_keyword _ "hips" _ _ _ Hk). intros x Hx.
      by rewrite !matches_at_alt, Hx.
    - apply (test_keyword _ "root" _ _ _ Hk). intros x Hx.
      by rewrite !matches_at_alt, Hx, orb_true_r.
    - apply (test_keyword _ "armature" _ _ _ Hk). intros x Hx.
      by rewrite !matches_at_alt, Hx, orb_true_r. }
  rewrite classify_find. unfold BONE_PATTERNS. cbn [List.find pattern].
  rewrite Hloose. clear Hloose. destruct (test _ _); reflexivity.
Qed.

(** A right hip-twist bone whose name holds [hips]. *)
Lemma root_keyword_maps_to_hips_witness :
  map_get (autoMapBones [bone 0 "RightHipsTwist"]) "RightHipsTwist" = Some "Hips".
Proof.
  apply (root_keyword_maps_to_hips [bone 0 "RightHipsTwist"] "Right" "Hips" "Twist").
  - apply list_elem_of_here.
  - by left.
Defined.
